(** * ai-dubber: the dubbing job pipeline of [app/dubbing_service.py]

    A shallow embedding of [DubbingService] and of the records of
    [app/models.py].  Python code that reads and writes the record store and
    the disk, and that may raise, is written in a state-and-exception monad
    over an explicit [World]. *)

From Stdlib Require Import ZArith Ascii String.
From stdpp Require Import gmap strings list fin_maps.

Local Open Scope string_scope.
Local Open Scope Z_scope.

(** ** app/models.py *)

Inductive DubbingStatus := PENDING | PROCESSING | COMPLETED | FAILED.

Inductive LanguageCode := ENGLISH | SPANISH | FRENCH | GERMAN.

#[global] Instance DubbingStatus_eq_dec : EqDecision DubbingStatus.
Proof. solve_decision. Defined.

#[global] Instance LanguageCode_eq_dec : EqDecision LanguageCode.
Proof. solve_decision. Defined.

(** [LanguageCode.X.value] *)
Definition LanguageCode_value (c : LanguageCode) : string :=
  match c with
  | ENGLISH => "en"
  | SPANISH => "es"
  | FRENCH => "fr"
  | GERMAN => "de"
  end.

(** A [datetime.datetime], field by field. *)
Record datetime := mk_datetime {
  year : nat; month : nat; day : nat;
  hour : nat; minute : nat; second : nat }.

Module Language.
Record t := mk {
  id : Z;
  code : LanguageCode;
  name : string;
  is_active : bool }.
End Language.

Module Video.
Record t := mk {
  id : Z;
  filename : string;
  original_filename : string;
  file_path : string;
  file_size : Z;
  duration : option Z;              (* Decimal with two places, in hundredths *)
  mime_type : string;
  source_language_id : Z;
  uploaded_at : datetime }.
End Video.

Module DubbingJob.
Record t := mk {
  id : Z;
  source_video_id : Z;
  target_language_id : Z;
  status : DubbingStatus;
  output_filename : option string;
  output_file_path : option string;
  output_file_size : option Z;
  processing_started_at : option datetime;
  processing_completed_at : option datetime;
  error_message : option string;
  created_at : datetime;
  updated_at : datetime }.
End DubbingJob.

(** ** Results and the state-and-exception monad

    A Python call either returns or raises; the state it has changed so far
    stays changed when it raises.  An exception is kept as its [str(e)]. *)

Inductive Result (A : Type) : Type :=
| Ok (a : A)
| Raise (e : string).
Arguments Ok {A} a.
Arguments Raise {A} e.

Definition SE (S A : Type) : Type := S -> Result A * S.

Definition ret {S A : Type} (a : A) : SE S A := fun s => (Ok a, s).

Definition raise {S A : Type} (e : string) : SE S A := fun s => (Raise e, s).

Definition bind {S A B : Type} (m : SE S A) (k : A -> SE S B) : SE S B :=
  fun s =>
    match m s with
    | (Ok a, s1) => k a s1
    | (Raise e, s1) => (Raise e, s1)
    end.

Declare Scope se_scope.
Delimit Scope se_scope with se.
Notation "x <- m ;; k" := (bind m (fun x => k))
  (at level 100, m at next level, right associativity) : se_scope.
Notation "m ;;; k" := (bind m (fun _ => k))
  (at level 100, right associativity) : se_scope.
Local Open Scope se_scope.

(** [try: body except Exception as e: handler(str(e))] *)
Definition try_except {S A : Type} (body : SE S A) (handler : string -> SE S A)
  : SE S A :=
  fun s =>
    match body s with
    | (Ok a, s1) => (Ok a, s1)
    | (Raise e, s1) => handler e s1
    end.

(** [try: body finally: fin]: [fin] runs on every exit of [body], also on a
    [return]; the outcome of [body] stands unless [fin] itself raises. *)
Definition try_finally {S A : Type} (body : SE S A) (fin : SE S unit) : SE S A :=
  fun s =>
    match body s with
    | (r, s1) =>
        match fin s1 with
        | (Ok _, s2) => (r, s2)
        | (Raise e, s2) => (Raise e, s2)
        end
    end.

(** ** The world: record store, disk, clock *)

(** What lies outside the process: the files on disk (path to size in bytes)
    and the wall clock. External tools act on this part only. *)
Record Outside := mk_outside {
  disk : gmap string Z;
  clock : datetime }.

Inductive Stage :=
| ExtractAudio | Transcribe | Translate | SynthesizeSpeech | MuxOutput.

#[global] Instance Stage_eq_dec : EqDecision Stage.
Proof. solve_decision. Defined.

Definition stage_index (k : Stage) : nat :=
  match k with
  | ExtractAudio => 1
  | Transcribe => 2
  | Translate => 3
  | SynthesizeSpeech => 4
  | MuxOutput => 5
  end%nat.

(** Observable steps of a run, in the order they happen: a stage adapter was
    invoked and came back with a result, or a job row was committed with a
    status. *)
Inductive Event :=
| EvStage (k : Stage) (r : Result (option string))
| EvStatus (job_id : Z) (s : DubbingStatus).

Record World := mk_world {
  languages : list Language.t;          (* rows of table languages, in row order *)
  videos : gmap Z Video.t;
  jobs : gmap Z DubbingJob.t;
  outside : Outside;
  faults : list (option string);        (* what the next store operations will do *)
  trace : list Event }.

Definition M (A : Type) : Type := SE World A.

Definition set_jobs (js : gmap Z DubbingJob.t) (w : World) : World :=
  mk_world (languages w) (videos w) js (outside w) (faults w) (trace w).

Definition set_videos (vs : gmap Z Video.t) (w : World) : World :=
  mk_world (languages w) vs (jobs w) (outside w) (faults w) (trace w).

Definition set_outside (o : Outside) (w : World) : World :=
  mk_world (languages w) (videos w) (jobs w) o (faults w) (trace w).

Definition set_faults (fs : list (option string)) (w : World) : World :=
  mk_world (languages w) (videos w) (jobs w) (outside w) fs (trace w).

Definition add_event (e : Event) (w : World) : World :=
  mk_world (languages w) (videos w) (jobs w) (outside w) (faults w) (trace w ++ [e]).

(** Run code that only touches the outside on the world. *)
Definition lift_outside {A : Type} (m : SE Outside A) : M A :=
  fun w => match m (outside w) with (r, o) => (r, set_outside o w) end.

(** [datetime.utcnow()] / [datetime.now()]: one clock, the zone is not
    modelled. *)
Definition now : SE Outside datetime := fun o => (Ok (clock o), o).

Definition utcnow : M datetime := lift_outside now.

(** [Path(p).exists()] *)
Definition path_exists (p : string) : SE Outside bool :=
  fun o => (Ok (bool_decide (is_Some (disk o !! p))), o).

(** [Path(p).unlink()] *)
Definition path_unlink (p : string) : SE Outside unit :=
  fun o =>
    match disk o !! p with
    | Some _ => (Ok tt, mk_outside (delete p (disk o)) (clock o))
    | None => (Raise "FileNotFoundError", o)
    end.

(** ** app/database.py (not part of the sources) *)

(** Modelled from the spec: the record store behind [get_session] ("Record
    store: create/get/list/update for Video, Language, Job, with relationship
    resolution"; "Store-level faults (e.g., unreachable persistence)").  Every
    store operation first consults [faults]: the head says whether this
    operation raises; an empty list is a store that works. *)
Definition store_op : M unit :=
  fun w =>
    match faults w with
    | [] => (Ok tt, w)
    | None :: fs => (Ok tt, set_faults fs w)
    | Some e :: fs => (Raise e, set_faults fs w)
    end.

(** Modelled from the spec: [session.get(DubbingJob, job_id)]. *)
Definition session_get_job (job_id : Z) : M (option DubbingJob.t) :=
  store_op ;;; fun w => (Ok (jobs w !! job_id), w).

(** Modelled from the spec: the lazy load of [job.source_video]; [None] when
    the reference does not resolve. *)
Definition load_source_video (job : DubbingJob.t) : M (option Video.t) :=
  store_op ;;; fun w => (Ok (videos w !! DubbingJob.source_video_id job), w).

(** Modelled from the spec: the lazy load of [job.target_language]. *)
Definition load_target_language (job : DubbingJob.t) : M (option Language.t) :=
  store_op ;;;
  fun w =>
    (Ok (head (filter (fun l => Language.id l = DubbingJob.target_language_id job)
                 (languages w))), w).

(** Modelled from the spec: [session.commit()] after the attributes of the
    row [job_id] were assigned; the row is replaced as a whole. *)
Definition session_commit_job (job_id : Z) (job : DubbingJob.t) : M unit :=
  store_op ;;;
  fun w =>
    (Ok tt, add_event (EvStatus job_id (DubbingJob.status job))
              (set_jobs (<[job_id := job]> (jobs w)) w)).

(** Modelled from the spec: the primary key given to the next inserted row,
    one more than the largest key in use. *)
Definition next_id {V : Type} (m : gmap Z V) : Z :=
  1 + foldr Z.max 0 (map fst (map_to_list m)).

(** Modelled from the spec: [session.add(job); session.commit();
    session.refresh(job)] for a new job row.  The store keeps the foreign
    keys that app/models.py declares on [source_video_id] and
    [target_language_id] ("a job always references exactly one video and one
    language, both resolvable at read time"): a row whose references do not
    resolve is refused and nothing is written. *)
Definition session_add_job (mk_job : Z -> DubbingJob.t) : M DubbingJob.t :=
  store_op ;;;
  fun w =>
    let i := next_id (jobs w) in
    match videos w !! DubbingJob.source_video_id (mk_job i),
          head (filter (fun l => Language.id l
                                 = DubbingJob.target_language_id (mk_job i))
                  (languages w)) with
    | Some _, Some _ =>
        (Ok (mk_job i),
         add_event (EvStatus i (DubbingJob.status (mk_job i)))
           (set_jobs (<[i := mk_job i]> (jobs w)) w))
    | _, _ => (Raise "IntegrityError", w)
    end.

(** Modelled from the spec: the same for a new video row, with the foreign
    key on [source_language_id]. *)
Definition session_add_video (mk_video : Z -> Video.t) : M Video.t :=
  store_op ;;;
  fun w =>
    let i := next_id (videos w) in
    match head (filter (fun l => Language.id l
                               = Video.source_language_id (mk_video i))
                  (languages w)) with
    | Some _ => (Ok (mk_video i), set_videos (<[i := mk_video i]> (videos w)) w)
    | None => (Raise "IntegrityError", w)
    end.

(** Modelled from the spec: [session.exec(select(Language).where(cond)).all()] *)
Definition session_select_languages (cond : Language.t -> bool)
  : M (list Language.t) :=
  store_op ;;; fun w => (Ok (List.filter cond (languages w)), w).

(** ** pathlib and strftime, as far as the service uses them

    Paths are strings in the normal form that [str(Path(..))] produces (no
    doubled or trailing slash). *)

Fixpoint has_char (c : ascii) (s : string) : bool :=
  match s with
  | EmptyString => false
  | String a r => Ascii.eqb a c || has_char c r
  end.

(** [Path(p).name]: what follows the last slash. *)
Fixpoint path_name (p : string) : string :=
  match p with
  | EmptyString => EmptyString
  | String c r =>
      if has_char "/" r then path_name r
      else if Ascii.eqb c "/" then r else p
  end.

(** [s.rfind(c)] *)
Fixpoint rfind (c : ascii) (s : string) : option nat :=
  match s with
  | EmptyString => None
  | String a r =>
      match rfind c r with
      | Some i => Some (S i)
      | None => if Ascii.eqb a c then Some O else None
      end
  end.

(** [Path(p).suffix]: from the last dot of the name, unless that dot is the
    first or the last character of the name. *)
Definition path_suffix (p : string) : string :=
  let name := path_name p in
  match rfind "." name with
  | Some i =>
      if ((0 <? i) && (i <? String.length name - 1))%nat
      then substring i (String.length name - i) name
      else ""
  | None => ""
  end.

(** [Path(p).stem]: the name without its suffix. *)
Definition path_stem (p : string) : string :=
  let name := path_name p in
  match rfind "." name with
  | Some i =>
      if ((0 <? i) && (i <? String.length name - 1))%nat
      then substring 0 i name
      else name
  | None => name
  end.

(** [str(Path(d) / f)] *)
Definition path_join (d f : string) : string :=
  match f with
  | EmptyString => d
  | String c _ => if Ascii.eqb c "/" then f else d +:+ "/" +:+ f
  end.

Definition digit (n : nat) : ascii := ascii_of_nat (48 + n mod 10).

(** The last [width] decimal digits of [n], zero padded. *)
Fixpoint zero_padded (width n : nat) : string :=
  match width with
  | O => ""
  | S w => zero_padded w (n / 10) +:+ String (digit n) ""
  end.

(** [t.strftime("%Y%m%d_%H%M%S")], for years below 10000. *)
Definition strftime (t : datetime) : string :=
  zero_padded 4 (year t) +:+ zero_padded 2 (month t) +:+ zero_padded 2 (day t)
  +:+ "_" +:+
  zero_padded 2 (hour t) +:+ zero_padded 2 (minute t) +:+ zero_padded 2 (second t).

Definition is_space (c : ascii) : bool :=
  let n := nat_of_ascii c in ((n =? 32) || ((9 <=? n) && (n <=? 13)))%nat.

Fixpoint lstrip (s : string) : string :=
  match s with
  | EmptyString => EmptyString
  | String c r => if is_space c then lstrip r else s
  end.

Fixpoint rstrip (s : string) : string :=
  match s with
  | EmptyString => EmptyString
  | String c r =>
      match rstrip r with
      | EmptyString => if is_space c then EmptyString else String c EmptyString
      | r' => String c r'
      end
  end.

(** [s.strip()] *)
Definition strip (s : string) : string := rstrip (lstrip s).

(** ** What the service calls outside the repository *)

Record CompletedProcess := mk_completed {
  returncode : Z;
  stdout : string;
  stderr : string }.

(** The external tools and services: [subprocess.run(args, timeout=..)] for
    ffmpeg and ffprobe, the name [tempfile.NamedTemporaryFile] picks, the
    OpenAI client, and [Decimal(s).quantize(Decimal("0.01"))] ([None] when the
    text is no number, where Python raises). Any of the calls may raise. *)
Record Env := mk_env {
  subprocess_run : list string -> Z -> SE Outside CompletedProcess;
  tempfile_name : string -> Outside -> string;
  transcriptions_create : string -> SE Outside string;
  chat_completions_create : string -> string -> SE Outside (option string);
  speech_create : string -> string -> SE Outside unit;
  decimal_quantize : string -> option Z }.

(** [with tempfile.NamedTemporaryFile(suffix=.., delete=False) as f: f.name]:
    an empty file is created and stays. *)
Definition named_temporary_file (env : Env) (suffix : string) : SE Outside string :=
  fun o =>
    let p := tempfile_name env suffix o in
    (Ok p, mk_outside (<[p := 0]> (disk o)) (clock o)).

(** [open(p, "rb")] *)
Definition open_rb (p : string) : SE Outside unit :=
  fun o =>
    match disk o !! p with
    | Some _ => (Ok tt, o)
    | None => (Raise "FileNotFoundError", o)
    end.

(** [with open(p, "wb") as f: f.write(content)] *)
Definition write_file (p : string) (content : string) : SE Outside unit :=
  fun o =>
    (Ok tt, mk_outside (<[p := Z.of_nat (String.length content)]> (disk o)) (clock o)).

(** The five stage methods of the service; a test double may put any
    behaviour here, also one that raises. *)
Record Adapters := mk_adapters {
  extract_audio : string -> SE Outside (option string);
  transcribe_audio : string -> SE Outside (option string);
  translate_text : string -> LanguageCode -> SE Outside (option string);
  generate_ai_speech : string -> LanguageCode -> SE Outside (option string);
  replace_video_audio : string -> string -> LanguageCode -> SE Outside (option string) }.

(** Invoke a stage method; the invocation and what came back are recorded. *)
Definition call_stage (k : Stage) (m : SE Outside (option string))
  : M (option string) :=
  fun w =>
    match m (outside w) with
    | (r, o) => (r, add_event (EvStage k r) (set_outside o w))
    end.

(** Python truthiness of an [Optional[str]]: the string when [x] is neither
    [None] nor empty. *)
Definition truthy (x : option string) : option string :=
  match x with
  | Some EmptyString => None
  | _ => x
  end.

(** [source_video.file_path] on what the relationship gave. *)
Definition attr_file_path (v : option Video.t) : M string :=
  match v with
  | Some v => ret (Video.file_path v)
  | None => raise "'NoneType' object has no attribute 'file_path'"
  end.

(** [target_language.code] *)
Definition attr_code (l : option Language.t) : M LanguageCode :=
  match l with
  | Some l => ret (Language.code l)
  | None => raise "'NoneType' object has no attribute 'code'"
  end.

(** ** app/dubbing_service.py: class DubbingService *)

Definition upload_dir : string := "uploads".
Definition output_dir : string := "outputs".

(** [get_languages] *)
Definition get_languages : M (list Language.t) :=
  session_select_languages (fun l => Language.is_active l).

(** [get_target_languages] *)
Definition get_target_languages (source_language_id : Z) : M (list Language.t) :=
  session_select_languages
    (fun l => Language.is_active l
              && negb (Language.id l =? source_language_id)).

(** [_get_video_duration] *)
Definition _get_video_duration (env : Env) (file_path : string)
  : SE Outside (option Z) :=
  try_except
    (result <- subprocess_run env
                 ["ffprobe"; "-v"; "quiet"; "-show_entries"; "format=duration";
                  "-of"; "csv=p=0"; file_path] 30 ;;
     if (returncode result =? 0) && negb (String.eqb (strip (stdout result)) "")
     then
       match decimal_quantize env (strip (stdout result)) with
       | Some d => ret (Some d)
       | None => raise "InvalidOperation"
       end
     else ret None)
    (fun _ => ret None).

(** The field checks of the schema [VideoUpload] ([max_length], [ge=0]). *)
Definition VideoUpload_validate (filename : string) (file_size : Z)
    (mime_type : string) : M unit :=
  if ((String.length filename <=? 255)%nat && (0 <=? file_size)
      && (String.length mime_type <=? 100)%nat)
  then ret tt
  else raise "ValidationError".

(** [save_video]; [file_content] is the uploaded bytes. *)
Definition save_video (env : Env) (file_content original_filename mime_type : string)
    (source_language_id : Z) : M Video.t :=
  t <- lift_outside now ;;
  let timestamp := strftime t in
  let file_extension := path_suffix original_filename in
  let filename := "video_" +:+ timestamp +:+ file_extension in
  let file_path := path_join upload_dir filename in
  lift_outside (write_file file_path file_content) ;;;
  duration <- lift_outside (_get_video_duration env file_path) ;;
  let file_size := Z.of_nat (String.length file_content) in
  VideoUpload_validate filename file_size mime_type ;;;
  uploaded <- utcnow ;;
  session_add_video
    (fun i => Video.mk i filename original_filename file_path file_size
                duration mime_type source_language_id uploaded).

(** [create_dubbing_job]; the two timestamps are the model's defaults. *)
Definition create_dubbing_job (source_video_id target_language_id : Z)
  : M DubbingJob.t :=
  created <- utcnow ;;
  updated <- utcnow ;;
  session_add_job
    (fun i => DubbingJob.mk i source_video_id target_language_id PENDING
                None None None None None None created updated).

(** [get_dubbing_job] *)
Definition get_dubbing_job (job_id : Z) : M (option DubbingJob.t) :=
  job <- session_get_job job_id ;;
  match job with
  | Some j => load_source_video j ;;; load_target_language j ;;; ret job
  | None => ret job
  end.

(** The assignments of [process_dubbing_job] to the row it marks. *)
Definition mark_processing (job : DubbingJob.t) (t : datetime) : DubbingJob.t :=
  DubbingJob.mk (DubbingJob.id job) (DubbingJob.source_video_id job)
    (DubbingJob.target_language_id job) PROCESSING
    (DubbingJob.output_filename job) (DubbingJob.output_file_path job)
    (DubbingJob.output_file_size job) (Some t)
    (DubbingJob.processing_completed_at job) (DubbingJob.error_message job)
    (DubbingJob.created_at job) (DubbingJob.updated_at job).

(** The assignments of [_update_job_success]. *)
Definition mark_completed (job : DubbingJob.t) (output_path : string)
    (output_file_size : Z) (completed updated : datetime) : DubbingJob.t :=
  DubbingJob.mk (DubbingJob.id job) (DubbingJob.source_video_id job)
    (DubbingJob.target_language_id job) COMPLETED
    (Some (path_name output_path)) (Some output_path) (Some output_file_size)
    (DubbingJob.processing_started_at job) (Some completed)
    (DubbingJob.error_message job)
    (DubbingJob.created_at job) updated.

(** The assignments of [_update_job_error]. *)
Definition mark_failed (job : DubbingJob.t) (error_message : string)
    (completed updated : datetime) : DubbingJob.t :=
  DubbingJob.mk (DubbingJob.id job) (DubbingJob.source_video_id job)
    (DubbingJob.target_language_id job) FAILED
    (DubbingJob.output_filename job) (DubbingJob.output_file_path job)
    (DubbingJob.output_file_size job)
    (DubbingJob.processing_started_at job) (Some completed)
    (Some error_message)
    (DubbingJob.created_at job) updated.

(** [Path(p).stat().st_size if Path(p).exists() else 0] *)
Definition size_or_zero (p : string) : SE Outside Z :=
  fun o => (Ok (default 0 (disk o !! p)), o).

(** [_update_job_success] *)
Definition _update_job_success (job_id : Z) (output_path : string) : M unit :=
  try_except
    (output_file_size <- lift_outside (size_or_zero output_path) ;;
     job <- session_get_job job_id ;;
     match job with
     | Some job =>
         completed <- utcnow ;;
         updated <- utcnow ;;
         session_commit_job job_id
           (mark_completed job output_path output_file_size completed updated)
     | None => ret tt
     end)
    (fun _ => ret tt).

(** [_update_job_error] *)
Definition _update_job_error (job_id : Z) (error_message : string) : M unit :=
  try_except
    (job <- session_get_job job_id ;;
     match job with
     | Some job =>
         completed <- utcnow ;;
         updated <- utcnow ;;
         session_commit_job job_id (mark_failed job error_message completed updated)
     | None => ret tt
     end)
    (fun _ => ret tt).

(** The [finally] block of [_process_dubbing_sync]. *)
Definition cleanup (audio_path : string) : M unit :=
  lift_outside
    (found <- path_exists audio_path ;;
     if found then path_unlink audio_path else ret tt).

(** The first block of [process_dubbing_job], the Processing start write:
    [with get_session() as session: ...] down to its [session.commit()];
    [false] is the early [return False] for a missing job. *)
Definition start_processing (job_id : Z) : M bool :=
  job <- session_get_job job_id ;;
  match job with
  | None => ret false
  | Some job =>
      started <- utcnow ;;
      session_commit_job job_id (mark_processing job started) ;;;
      ret true
  end.

Section Pipeline.

Variable svc : Adapters.

(** [_process_dubbing_sync] *)
Definition _process_dubbing_sync (job_id : Z) : M bool :=
  try_except
    (job <- session_get_job job_id ;;
     match job with
     | None => ret false
     | Some job =>
       source_video <- load_source_video job ;;
       target_language <- load_target_language job ;;
       video_path <- attr_file_path source_video ;;
       audio_path <- call_stage ExtractAudio (extract_audio svc video_path) ;;
       match truthy audio_path with
       | None =>
           _update_job_error job_id "Failed to extract audio from video" ;;;
           ret false
       | Some audio_path =>
         try_finally
           (transcript <- call_stage Transcribe (transcribe_audio svc audio_path) ;;
            match truthy transcript with
            | None =>
                _update_job_error job_id "Failed to transcribe audio" ;;;
                ret false
            | Some transcript =>
              code <- attr_code target_language ;;
              translated_text <-
                call_stage Translate (translate_text svc transcript code) ;;
              match truthy translated_text with
              | None =>
                  _update_job_error job_id "Failed to translate text" ;;;
                  ret false
              | Some translated_text =>
                code <- attr_code target_language ;;
                ai_audio_path <-
                  call_stage SynthesizeSpeech
                    (generate_ai_speech svc translated_text code) ;;
                match truthy ai_audio_path with
                | None =>
                    _update_job_error job_id "Failed to generate AI speech" ;;;
                    ret false
                | Some ai_audio_path =>
                  video_path <- attr_file_path source_video ;;
                  code <- attr_code target_language ;;
                  output_path <-
                    call_stage MuxOutput
                      (replace_video_audio svc video_path ai_audio_path code) ;;
                  match truthy output_path with
                  | None =>
                      _update_job_error job_id "Failed to replace video audio" ;;;
                      ret false
                  | Some output_path =>
                      _update_job_success job_id output_path ;;;
                      ret true
                  end
                end
              end
            end)
           (cleanup audio_path)
       end
     end)
    (fun e => _update_job_error job_id e ;;; ret false).

(** [process_dubbing_job]; awaiting [run_in_executor] gives what
    [_process_dubbing_sync] returns or raises. *)
Definition process_dubbing_job (job_id : Z) : M bool :=
  try_except
    (found <- start_processing job_id ;;
     if found then _process_dubbing_sync job_id else ret false)
    (fun e => _update_job_error job_id e ;;; ret false).

End Pipeline.

(** [get_output_file_path] *)
Definition get_output_file_path (job_id : Z) : M (option string) :=
  job <- session_get_job job_id ;;
  match job with
  | Some job =>
      match DubbingJob.status job, truthy (DubbingJob.output_file_path job) with
      | COMPLETED, Some p =>
          found <- lift_outside (path_exists p) ;;
          if found then ret (Some p) else ret None
      | _, _ => ret None
      end
  | None => ret None
  end.

(** *** The stage methods as the service defines them *)

Section Service.

Variable env : Env.

(** [_extract_audio] *)
Definition _extract_audio (video_path : string) : SE Outside (option string) :=
  try_except
    (audio_path <- named_temporary_file env ".wav" ;;
     result <- subprocess_run env
                 ["ffmpeg"; "-i"; video_path; "-vn"; "-acodec"; "pcm_s16le";
                  "-ar"; "16000"; "-ac"; "1"; audio_path; "-y"] 300 ;;
     if returncode result =? 0
     then found <- path_exists audio_path ;;
          if found then ret (Some audio_path) else ret None
     else ret None)
    (fun _ => ret None).

(** [_transcribe_audio] *)
Definition _transcribe_audio (audio_path : string) : SE Outside (option string) :=
  try_except
    (open_rb audio_path ;;;
     transcript <- transcriptions_create env audio_path ;;
     ret (Some transcript))
    (fun _ => ret None).

(** The dict [language_names] of [_translate_text]. *)
Definition language_names (c : LanguageCode) : option string :=
  match c with
  | SPANISH => Some "Spanish"
  | FRENCH => Some "French"
  | GERMAN => Some "German"
  | ENGLISH => Some "English"
  end.

(** [_translate_text] *)
Definition _translate_text (text : string) (target_language : LanguageCode)
  : SE Outside (option string) :=
  try_except
    (let target_name :=
       default (LanguageCode_value target_language) (language_names target_language) in
     chat_completions_create env
       ("Translate the following text to " +:+ target_name +:+
        ". Preserve the natural flow and timing suitable for dubbing. Only return the translated text, no explanations.")
       text)
    (fun _ => ret None).

(** [_generate_ai_speech] *)
Definition _generate_ai_speech (text : string) (target_language : LanguageCode)
  : SE Outside (option string) :=
  try_except
    (speech_path <- named_temporary_file env ".mp3" ;;
     speech_create env text speech_path ;;;
     found <- path_exists speech_path ;;
     if found then ret (Some speech_path) else ret None)
    (fun _ => ret None).

(** [_replace_video_audio] *)
Definition _replace_video_audio (video_path audio_path : string)
    (target_language : LanguageCode) : SE Outside (option string) :=
  try_except
    (let video_name := path_stem video_path in
     t <- now ;;
     let timestamp := strftime t in
     let output_filename :=
       video_name +:+ "_dubbed_" +:+ LanguageCode_value target_language
       +:+ "_" +:+ timestamp +:+ ".mp4" in
     let output_path := path_join output_dir output_filename in
     result <- subprocess_run env
                 ["ffmpeg"; "-i"; video_path; "-i"; audio_path; "-c:v"; "copy";
                  "-c:a"; "aac"; "-map"; "0:v:0"; "-map"; "1:a:0"; output_path;
                  "-y"] 600 ;;
     if returncode result =? 0
     then found <- path_exists output_path ;;
          if found then ret (Some output_path) else ret None
     else ret None)
    (fun _ => ret None).

(** The service with its own stage methods. *)
Definition service : Adapters :=
  mk_adapters _extract_audio _transcribe_audio _translate_text
    _generate_ai_speech _replace_video_audio.

End Service.

(** ** Vocabulary of the properties *)

(** The fixed message of each stage. *)
Definition stage_label (k : Stage) : string :=
  match k with
  | ExtractAudio => "Failed to extract audio from video"
  | Transcribe => "Failed to transcribe audio"
  | Translate => "Failed to translate text"
  | SynthesizeSpeech => "Failed to generate AI speech"
  | MuxOutput => "Failed to replace video audio"
  end.

(** The events a run from [w] to [w'] has added. *)
Definition events_since (w w' : World) : list Event :=
  drop (length (trace w)) (trace w').

(** The world once the file [p] is gone. *)
Definition unlinked (p : string) (w : World) : World :=
  set_outside (mk_outside (delete p (disk (outside w))) (clock (outside w))) w.

(** The world after the error write for the row [j] of [job_id]. *)
Definition write_failed (job_id : Z) (j : DubbingJob.t) (msg : string) (w : World)
  : World :=
  add_event (EvStatus job_id FAILED)
    (set_jobs (<[job_id := mark_failed j msg (clock (outside w)) (clock (outside w))]>
                 (jobs w)) w).

(** The world after the success write for the row [j] of [job_id]. *)
Definition write_completed (job_id : Z) (j : DubbingJob.t) (p : string) (w : World)
  : World :=
  add_event (EvStatus job_id COMPLETED)
    (set_jobs (<[job_id := mark_completed j p (default 0 (disk (outside w) !! p))
                   (clock (outside w)) (clock (outside w))]> (jobs w)) w).

(** The world after the Processing start write. *)
Definition write_processing (job_id : Z) (j : DubbingJob.t) (w : World) : World :=
  add_event (EvStatus job_id PROCESSING)
    (set_jobs (<[job_id := mark_processing j (clock (outside w))]> (jobs w)) w).

(** Weakest preconditions for the monad: running [m] from [s] ends in an
    outcome and a state that satisfy [Q]. *)
Definition wp {S A : Type} (m : SE S A) (Q : Result A -> S -> Prop) (s : S) : Prop :=
  Q (fst (m s)) (snd (m s)).

(** A computation that never raises. *)
Definition no_raise {S A : Type} (m : SE S A) : Prop :=
  forall s, exists a s', m s = (Ok a, s').

Definition outputs_populated (j : DubbingJob.t) : Prop :=
  is_Some (DubbingJob.output_filename j)
  /\ is_Some (DubbingJob.output_file_path j)
  /\ is_Some (DubbingJob.output_file_size j).

Definition outputs_absent (j : DubbingJob.t) : Prop :=
  DubbingJob.output_filename j = None
  /\ DubbingJob.output_file_path j = None
  /\ DubbingJob.output_file_size j = None.

(** The invariant of a job row: output fields exactly when Completed, error
    message exactly when Failed. *)
Definition job_inv (j : DubbingJob.t) : Prop :=
  (DubbingJob.status j = COMPLETED -> outputs_populated j)
  /\ (DubbingJob.status j <> COMPLETED -> outputs_absent j)
  /\ (is_Some (DubbingJob.error_message j) <-> DubbingJob.status j = FAILED).

Definition store_inv (w : World) : Prop :=
  forall i j, jobs w !! i = Some j -> job_inv j.

(** A job that has not reached a terminal status. *)
Definition not_terminal (j : DubbingJob.t) : Prop :=
  DubbingJob.status j = PENDING \/ DubbingJob.status j = PROCESSING.

(** The row of [job_id], if there is one, is not terminal. *)
Definition open_job (job_id : Z) (w : World) : Prop :=
  forall j, jobs w !! job_id = Some j -> not_terminal j.

(** The first four stage methods of the service run one after the other
    from [o], as [_process_dubbing_sync] runs them on its way to the mux
    step: the speech file they end with, and with it the outside world in
    which the mux step starts; [None] as soon as one of them yields nothing. *)
Definition before_mux (env : Env) (video_path : string) (code : LanguageCode)
  : SE Outside (option string) :=
  audio_path <- _extract_audio env video_path ;;
  match truthy audio_path with
  | None => ret None
  | Some audio_path =>
    transcript <- _transcribe_audio env audio_path ;;
    match truthy transcript with
    | None => ret None
    | Some transcript =>
      translated_text <- _translate_text env transcript code ;;
      match truthy translated_text with
      | None => ret None
      | Some translated_text =>
        ai_audio_path <- _generate_ai_speech env translated_text code ;;
        ret (truthy ai_audio_path)
      end
    end
  end.

(** ** Concrete stores, tools and runs *)

(** Noon of 2 January 2024. *)
Definition noon : datetime := mk_datetime 2024 1 2 12 0 0.

(** The four languages the application installs, all active. *)
Definition english : Language.t := Language.mk 1 ENGLISH "English" true.
Definition spanish : Language.t := Language.mk 2 SPANISH "Spanish" true.
Definition french : Language.t := Language.mk 3 FRENCH "French" true.
Definition german : Language.t := Language.mk 4 GERMAN "German" true.
Definition four_languages : list Language.t := [english; spanish; french; german].




(** A Completed job with its output on disk. *)
Definition finished_job : DubbingJob.t :=
  DubbingJob.mk 1 1 2 COMPLETED
    (Some "video_20240102_115500_dubbed_es_20240102_120000.mp4")
    (Some "outputs/video_20240102_115500_dubbed_es_20240102_120000.mp4")
    (Some 4096) (Some noon) (Some noon) None noon noon.

Definition finished_world : World :=
  mk_world four_languages ∅ {[1 := finished_job]}
    (mk_outside {["outputs/video_20240102_115500_dubbed_es_20240102_120000.mp4" := 4096]} noon)
    [] [].

(** A job as [create_dubbing_job] leaves it. *)
Definition pending_job : DubbingJob.t :=
  DubbingJob.mk 1 1 2 PENDING None None None None None None noon noon.

Definition pending_world : World :=
  mk_world four_languages ∅ {[1 := pending_job]} (mk_outside ∅ noon) [] [].

(** A store with the languages only. *)
Definition language_world : World :=
  mk_world four_languages ∅ ∅ (mk_outside ∅ noon) [] [].

Definition stored_video : Video.t :=
  Video.mk 1 "video_20240102_115500.mp4" "clip.mp4" "uploads/video_20240102_115500.mp4"
    16 (Some 1230) "video/mp4" 1 noon.

(** A stored video with a Pending job for Spanish. *)
Definition ready_world : World :=
  mk_world four_languages {[1 := stored_video]} {[1 := pending_job]}
    (mk_outside {["uploads/video_20240102_115500.mp4" := 16]} noon) [] [].

(** Stage methods where extraction succeeds and transcription comes back
    with nothing. *)
Definition no_transcript : Adapters :=
  mk_adapters (fun _ => ret (Some "/tmp/tmpa1b2c3d4.wav")) (fun _ => ret None)
    (fun _ _ => ret None) (fun _ _ => ret None) (fun _ _ _ => ret None).

Definition five_minutes_later (t : datetime) : datetime :=
  mk_datetime (year t) (month t) (day t) (hour t) (minute t + 5) (second t).

(** An installation where every tool works: ffprobe reports 12.30 seconds,
    ffmpeg writes its output file (the argument before the final [-y]) and
    takes five minutes, the speech service writes the file it is asked for. *)
Definition studio : Env :=
  mk_env
    (fun args _ o =>
       match args with
       | "ffprobe" :: _ =>
           (Ok (mk_completed 0 ("12.300000" +:+ String "010"%char "") ""), o)
       | _ =>
           (Ok (mk_completed 0 "" ""),
            mk_outside (<[nth (length args - 2) args "" := 2048]> (disk o))
              (five_minutes_later (clock o)))
       end)
    (fun suffix _ => "/tmp/tmpa1b2c3d4" +:+ suffix)
    (fun _ => ret "hello")
    (fun _ _ => ret (Some "hola"))
    (fun _ speech_path o => (Ok tt, mk_outside (<[speech_path := 512]> (disk o)) (clock o)))
    (fun s => if String.eqb s "12.300000" then Some 1230 else None).

(** The same installation with an ffmpeg that exits with status 1 and writes
    nothing. *)
Definition broken_ffmpeg : Env :=
  mk_env
    (fun _ _ o => (Ok (mk_completed 1 "" "Invalid data found when processing input"), o))
    (tempfile_name studio) (transcriptions_create studio)
    (chat_completions_create studio) (speech_create studio) (decimal_quantize studio).

(** Scenario A: upload "clip.mp4" (English), ask for Spanish, run the job. *)
Definition scenario_A (env : Env) : M bool :=
  video <- save_video env "fake_mp4_content" "clip.mp4" "video/mp4" 1 ;;
  job <- create_dubbing_job (Video.id video) 2 ;;
  process_dubbing_job (service env) (DubbingJob.id job).

(** Whether [s] is [prefix] followed by something followed by [suffix]. *)
Definition matches_pattern (pre suf s : string) : Prop :=
  exists mid, s = pre +:+ mid +:+ suf.

(** The world of scenario A once the video is uploaded and the job created. *)
Definition submitted_world : World :=
  snd ((video <- save_video studio "fake_mp4_content" "clip.mp4" "video/mp4" 1 ;;
        create_dubbing_job (Video.id video) 2) language_world).

(** ** More of app/dubbing_service.py and app/video_dubbing.py *)

(** Modelled from the spec: [session.exec(select(DubbingJob).where(cond)).all()];
    the rows come in the order of the store. *)
Definition session_select_jobs (cond : DubbingJob.t -> bool) : M (list DubbingJob.t) :=
  store_op ;;;
  fun w => (Ok (List.filter cond (map snd (map_to_list (jobs w)))), w).

(** [for x in l: body(x)] *)
Fixpoint for_each {S A : Type} (l : list A) (body : A -> SE S unit) : SE S unit :=
  match l with
  | [] => ret tt
  | x :: l' => body x ;;; for_each l' body
  end.

(** [get_dubbing_jobs] *)
Definition get_dubbing_jobs (video_id : option Z) : M (list DubbingJob.t) :=
  jobs <- session_select_jobs
            (match video_id with
             | Some v => fun job => DubbingJob.source_video_id job =? v
             | None => fun _ => true
             end) ;;
  for_each jobs
    (fun job => load_source_video job ;;; load_target_language job ;;; ret tt) ;;;
  ret jobs.

Definition set_languages (ls : list Language.t) (w : World) : World :=
  mk_world ls (videos w) (jobs w) (outside w) (faults w) (trace w).

(** Modelled from the spec: a session as a transaction: what the body added
    is dropped when the body raises. *)
Definition in_transaction {A : Type} (body : M A) : M A :=
  fun w =>
    match body w with
    | (Ok a, w1) => (Ok a, w1)
    | (Raise e, w1) => (Raise e, set_languages (languages w) w1)
    end.

(** Modelled from the spec:
    [session.exec(select(Language).where(Language.code == code)).first()];
    rows added in this session are seen. *)
Definition session_first_language (code : LanguageCode) : M (option Language.t) :=
  store_op ;;;
  fun w =>
    (Ok (head (List.filter (fun l => bool_decide (Language.code l = code))
                 (languages w))), w).

(** Modelled from the spec: [session.add(Language(code=.., name=..,
    is_active=True))]; the row gets the next key. *)
Definition session_add_language (code : LanguageCode) (name : string) : M unit :=
  fun w =>
    (Ok tt,
     set_languages
       (languages w
        ++ [Language.mk (1 + foldr Z.max 0 (map Language.id (languages w)))
              code name true]) w).

(** [languages_data] of [_initialize_languages] *)
Definition languages_data : list (LanguageCode * string) :=
  [(ENGLISH, "English"); (SPANISH, "Spanish"); (FRENCH, "French"); (GERMAN, "German")].

(** [_initialize_languages] of app/video_dubbing.py *)
Definition _initialize_languages : M unit :=
  in_transaction
    (for_each languages_data
       (fun '(code, name) =>
          existing <- session_first_language code ;;
          match existing with
          | None => session_add_language code name
          | Some _ => ret tt
          end) ;;;
     store_op).

(** [w'] differs from [w] at most in the row of [job_id] (and in the fault
    schedule and the trace), and that row keeps its references. *)
Definition only_job_changed (job_id : Z) (w w' : World) : Prop :=
  videos w' = videos w /\ languages w' = languages w /\ outside w' = outside w
  /\ (forall i, i <> job_id -> jobs w' !! i = jobs w !! i)
  /\ (jobs w !! job_id = None -> jobs w' = jobs w)
  /\ (forall j', jobs w' !! job_id = Some j' ->
        exists j, jobs w !! job_id = Some j
                  /\ DubbingJob.source_video_id j' = DubbingJob.source_video_id j
                  /\ DubbingJob.target_language_id j' = DubbingJob.target_language_id j
                  /\ DubbingJob.processing_started_at j'
                     = DubbingJob.processing_started_at j
                  /\ DubbingJob.created_at j' = DubbingJob.created_at j).

(** ** Vocabulary of the further properties *)

(** The order in which [_process_dubbing_sync] calls the stage methods. *)
Definition stage_order : list Stage :=
  [ExtractAudio; Transcribe; Translate; SynthesizeSpeech; MuxOutput].

(** The stages invoked by a list of events, in order. *)
Definition stages_invoked (evs : list Event) : list Stage :=
  omap (fun e => match e with EvStage k _ => Some k | EvStatus _ _ => None end) evs.

(** The status commits of a list of events, in order, each with its job id. *)
Definition status_writes (evs : list Event) : list (Z * DubbingStatus) :=
  omap (fun e => match e with EvStatus i s => Some (i, s) | EvStage _ _ => None end) evs.

(** Code that removes no file from the disk. *)
Definition keeps_files {A : Type} (m : SE Outside A) : Prop :=
  forall o r o' q, m o = (r, o') -> is_Some (disk o !! q) -> is_Some (disk o' !! q).

Definition adapters_keep_files (svc : Adapters) : Prop :=
  (forall v, keeps_files (extract_audio svc v))
  /\ (forall a, keeps_files (transcribe_audio svc a))
  /\ (forall t c, keeps_files (translate_text svc t c))
  /\ (forall t c, keeps_files (generate_ai_speech svc t c))
  /\ (forall v a c, keeps_files (replace_video_audio svc v a c)).

(** Stage methods where transcription comes back with the empty string. *)
Definition empty_transcript : Adapters :=
  mk_adapters (fun _ => ret (Some "/tmp/tmpa1b2c3d4.wav")) (fun _ => ret (Some ""))
    (fun _ _ => ret None) (fun _ _ => ret None) (fun _ _ _ => ret None).

(** Stage methods where the translation call raises. *)
Definition failing_translation : Adapters :=
  mk_adapters (fun _ => ret (Some "/tmp/tmpa1b2c3d4.wav")) (fun _ => ret (Some "hello"))
    (fun _ _ => raise "rate limit exceeded") (fun _ _ => ret None)
    (fun _ _ _ => ret None).

(** Tools that remove no file: every [subprocess.run] and every call of the
    speech service leaves the files that were on disk. *)
Definition tools_keep_files (env : Env) : Prop :=
  (forall args t, keeps_files (subprocess_run env args t))
  /\ (forall text p, keeps_files (speech_create env text p)).

(** * Proofs *)

(** ** Running the service on a store that works *)

Ltac world_simpl :=
  cbn [faults jobs videos languages outside trace disk clock
       add_event set_outside set_jobs set_faults set_videos unlinked
       write_failed write_completed write_processing fst snd] in *.

Lemma store_op_healthy w : faults w = [] -> store_op w = (Ok tt, w).
Proof. intros H. unfold store_op. now rewrite H. Qed.

Lemma session_get_job_healthy job_id w :
  faults w = [] -> session_get_job job_id w = (Ok (jobs w !! job_id), w).
Proof. intros H. unfold session_get_job, bind. now rewrite store_op_healthy. Qed.

Lemma load_source_video_healthy job w :
  faults w = [] ->
  load_source_video job w = (Ok (videos w !! DubbingJob.source_video_id job), w).
Proof. intros H. unfold load_source_video, bind. now rewrite store_op_healthy. Qed.

Lemma load_target_language_healthy job w :
  faults w = [] ->
  load_target_language job w =
    (Ok (head (filter (fun l => Language.id l = DubbingJob.target_language_id job)
                 (languages w))), w).
Proof. intros H. unfold load_target_language, bind. now rewrite store_op_healthy. Qed.

Lemma set_outside_same w : set_outside (outside w) w = w.
Proof. now destruct w. Qed.

Lemma _update_job_error_healthy job_id msg w j :
  faults w = [] -> jobs w !! job_id = Some j ->
  _update_job_error job_id msg w = (Ok tt, write_failed job_id j msg w).
Proof.
  intros Hf Hj. unfold _update_job_error, try_except, bind.
  rewrite session_get_job_healthy by done. rewrite Hj.
  unfold utcnow, lift_outside, now. simpl.
  unfold session_commit_job, bind. rewrite store_op_healthy by done.
  destruct w; reflexivity.
Qed.

Lemma _update_job_error_missing job_id msg w :
  faults w = [] -> jobs w !! job_id = None ->
  _update_job_error job_id msg w = (Ok tt, w).
Proof.
  intros Hf Hj. unfold _update_job_error, try_except, bind.
  rewrite session_get_job_healthy by done. now rewrite Hj.
Qed.

Lemma _update_job_success_healthy job_id p w j :
  faults w = [] -> jobs w !! job_id = Some j ->
  _update_job_success job_id p w = (Ok tt, write_completed job_id j p w).
Proof.
  intros Hf Hj. unfold _update_job_success, try_except, bind.
  unfold lift_outside, size_or_zero. rewrite set_outside_same.
  rewrite session_get_job_healthy by done. rewrite Hj.
  unfold utcnow, lift_outside, now. simpl.
  unfold session_commit_job, bind. rewrite store_op_healthy by done.
  destruct w; reflexivity.
Qed.

Lemma cleanup_unlinks p w : cleanup p w = (Ok tt, unlinked p w).
Proof.
  unfold cleanup, lift_outside, bind, path_exists, path_unlink, ret, unlinked.
  destruct (disk (outside w) !! p) as [n|] eqn:Hp.
  - rewrite bool_decide_true by eauto. cbv beta iota. now rewrite Hp.
  - rewrite bool_decide_false by (intros [? ?]; congruence).
    rewrite delete_id by done. now destruct w as [? ? ? [? ?] ? ?].
Qed.

Lemma try_finally_cleanup {A} (body : M A) p w :
  try_finally body (cleanup p) w = (fst (body w), unlinked p (snd (body w))).
Proof.
  unfold try_finally. destruct (body w) as [r w1]. now rewrite cleanup_unlinks.
Qed.


Lemma wp_elim {S A} (m : SE S A) Q s :
  wp m Q s -> forall r s', m s = (r, s') -> Q r s'.
Proof. unfold wp. intros H r s' E. now rewrite E in H. Qed.

Lemma wp_ret {S A} (a : A) (Q : Result A -> S -> Prop) s :
  Q (Ok a) s -> wp (ret a) Q s.
Proof. trivial. Qed.

Lemma wp_raise {S A} e (Q : Result A -> S -> Prop) s :
  Q (Raise e) s -> wp (raise e) Q s.
Proof. trivial. Qed.

Lemma wp_bind {S A B} (m : SE S A) (k : A -> SE S B) Q s :
  wp m (fun r s1 => match r with
                    | Ok a => wp (k a) Q s1
                    | Raise e => Q (Raise e) s1
                    end) s ->
  wp (bind m k) Q s.
Proof. unfold wp, bind. now destruct (m s) as [[a|e] s1]. Qed.

Lemma wp_try_except {S A} (body : SE S A) handler Q s :
  wp body (fun r s1 => match r with
                       | Ok a => Q (Ok a) s1
                       | Raise e => wp (handler e) Q s1
                       end) s ->
  wp (try_except body handler) Q s.
Proof. unfold wp, try_except. now destruct (body s) as [[a|e] s1]. Qed.

Lemma wp_try_finally_cleanup {A} (body : M A) p Q w :
  wp body (fun r w1 => Q r (unlinked p w1)) w ->
  wp (try_finally body (cleanup p)) Q w.
Proof. unfold wp. now rewrite try_finally_cleanup. Qed.

Lemma wp_session_get_job job_id Q w :
  faults w = [] -> Q (Ok (jobs w !! job_id)) w -> wp (session_get_job job_id) Q w.
Proof. intros Hf H. unfold wp. now rewrite session_get_job_healthy. Qed.

Lemma wp_load_source_video job Q w :
  faults w = [] ->
  Q (Ok (videos w !! DubbingJob.source_video_id job)) w ->
  wp (load_source_video job) Q w.
Proof. intros Hf H. unfold wp. now rewrite load_source_video_healthy. Qed.

Lemma wp_load_target_language job Q w :
  faults w = [] ->
  Q (Ok (head (filter (fun l => Language.id l = DubbingJob.target_language_id job)
                 (languages w)))) w ->
  wp (load_target_language job) Q w.
Proof. intros Hf H. unfold wp. now rewrite load_target_language_healthy. Qed.

Lemma wp_call_stage k m (Q : Result (option string) -> World -> Prop) w :
  (forall r o, m (outside w) = (r, o) ->
               Q r (add_event (EvStage k r) (set_outside o w))) ->
  wp (call_stage k m) Q w.
Proof.
  intros H. unfold wp, call_stage.
  destruct (m (outside w)) as [r o] eqn:E. now apply H.
Qed.

Lemma wp_update_job_error job_id msg j Q w :
  faults w = [] -> jobs w !! job_id = Some j ->
  Q (Ok tt) (write_failed job_id j msg w) ->
  wp (_update_job_error job_id msg) Q w.
Proof. intros Hf Hj H. unfold wp. now rewrite (_update_job_error_healthy _ _ _ j). Qed.

Lemma wp_update_job_error_missing job_id msg Q w :
  faults w = [] -> jobs w !! job_id = None ->
  Q (Ok tt) w -> wp (_update_job_error job_id msg) Q w.
Proof. intros Hf Hj H. unfold wp. now rewrite _update_job_error_missing. Qed.

Lemma wp_update_job_success job_id p j Q w :
  faults w = [] -> jobs w !! job_id = Some j ->
  Q (Ok tt) (write_completed job_id j p w) ->
  wp (_update_job_success job_id p) Q w.
Proof. intros Hf Hj H. unfold wp. now rewrite (_update_job_success_healthy _ _ _ j). Qed.

Lemma start_processing_healthy job_id w j :
  faults w = [] -> jobs w !! job_id = Some j ->
  start_processing job_id w = (Ok true, write_processing job_id j w).
Proof.
  intros Hf Hj. unfold start_processing, bind.
  rewrite session_get_job_healthy by done. rewrite Hj.
  unfold utcnow, lift_outside, now. simpl.
  unfold session_commit_job, bind. rewrite store_op_healthy by done.
  destruct w; reflexivity.
Qed.

Lemma start_processing_missing job_id w :
  faults w = [] -> jobs w !! job_id = None ->
  start_processing job_id w = (Ok false, w).
Proof.
  intros Hf Hj. unfold start_processing, bind.
  rewrite session_get_job_healthy by done. now rewrite Hj.
Qed.

Lemma wp_start_processing job_id j Q w :
  faults w = [] -> jobs w !! job_id = Some j ->
  Q (Ok true) (write_processing job_id j w) ->
  wp (start_processing job_id) Q w.
Proof. intros Hf Hj H. unfold wp. now rewrite (start_processing_healthy _ _ j). Qed.

Lemma wp_start_processing_missing job_id Q w :
  faults w = [] -> jobs w !! job_id = None ->
  Q (Ok false) w -> wp (start_processing job_id) Q w.
Proof. intros Hf Hj H. unfold wp. now rewrite start_processing_missing. Qed.

Ltac side :=
  world_simpl; first [eassumption | apply lookup_insert_eq | done].

Ltac wp_step :=
  lazymatch goal with
  | |- wp (bind _ _) _ _ => apply wp_bind
  | |- wp (ret _) _ _ => apply wp_ret
  | |- wp (raise _) _ _ => apply wp_raise
  | |- wp (try_except _ _) _ _ => apply wp_try_except
  | |- wp (try_finally _ (cleanup _)) _ _ => apply wp_try_finally_cleanup
  | |- wp (session_get_job _) _ _ =>
      apply wp_session_get_job; [side|]; world_simpl; rewrite ?lookup_insert_eq
  | |- wp (start_processing _) _ _ =>
      first [ eapply wp_start_processing; [side|side|]
            | apply wp_start_processing_missing; [side|side|] ]
  | |- wp (load_source_video _) _ _ => apply wp_load_source_video; [side|]
  | |- wp (load_target_language _) _ _ => apply wp_load_target_language; [side|]
  | |- wp (call_stage _ _) _ _ =>
      apply wp_call_stage; intros [[[|? ?]|]|?] ? ?
  | |- wp (_update_job_error _ _) _ _ =>
      first [ eapply wp_update_job_error; [side|side|]
            | apply wp_update_job_error_missing; [side|side|] ]
  | |- wp (_update_job_success _ _) _ _ =>
      eapply wp_update_job_success; [side|side|]
  | |- wp (attr_file_path ?v) _ _ =>
      first [ match goal with H : v = _ |- _ => rewrite H end
            | destruct v eqn:? ]; unfold attr_file_path
  | |- wp (attr_code ?v) _ _ =>
      first [ match goal with H : v = _ |- _ => rewrite H end
            | destruct v eqn:? ]; unfold attr_code
  | |- wp (match ?x with _ => _ end) _ _ =>
      first [ match goal with H : x = _ |- _ => rewrite H end
            | destruct x eqn:? ]
  end;
  cbv beta iota delta [truthy];
  cbn [mark_processing DubbingJob.source_video_id DubbingJob.target_language_id];
  world_simpl.

Ltac wp_run := repeat wp_step.

(** Turn a goal about the outcome [(r, s')] of a run [Hrun] into a [wp]. *)
Ltac wp_start Hrun :=
  lazymatch type of Hrun with
  | ?m ?s = (?r, ?s') =>
      lazymatch goal with
      | |- ?G =>
          let Q := eval pattern r, s' in G in
          lazymatch Q with
          | ?F r s' => refine (wp_elim m F s _ r s' Hrun); clear Hrun
          end
      end
  end.

Lemma events_since_app w w' evs :
  trace w' = (trace w ++ evs)%list -> events_since w w' = evs.
Proof. intros H. unfold events_since. rewrite H. apply drop_app_length. Qed.

Ltac events :=
  repeat match goal with
  | |- context [events_since ?w ?W] =>
      erewrite (events_since_app w W)
        by (world_simpl; rewrite <- ?app_assoc;
            first [reflexivity | symmetry; apply app_nil_r])
  end.

Ltac members H :=
  repeat (apply elem_of_cons in H as [H|H]);
  try (apply elem_of_nil in H; contradiction).
Ltac here := repeat first [apply list_elem_of_here | apply list_elem_of_further].

(** ** A stage that yields nothing *)

(** C1: in a run of the pipeline on a working store, when stage [k] comes
    back with [None], no stage after [k] is invoked, the run returns [False],
    and the job row is Failed with exactly the fixed label of stage [k]. *)
Theorem stage_absent_stops_pipeline svc job_id w k r w' :
  faults w = [] ->
  _process_dubbing_sync svc job_id w = (r, w') ->
  EvStage k (Ok None) ∈ events_since w w' ->
  r = Ok false
  ∧ (∀ k' r', EvStage k' r' ∈ events_since w w' → (stage_index k' <= stage_index k)%nat)
  ∧ ∃ j, jobs w' !! job_id = Some j
         ∧ DubbingJob.status j = FAILED
         ∧ DubbingJob.error_message j = Some (stage_label k).
Proof.
  intros Hf Hrun. wp_start Hrun.
  unfold _process_dubbing_sync.
  wp_run.
  all: events; simpl app.
  all: intros Hin; members Hin; simplify_eq.
  all: split; [reflexivity|].
  all: split; [intros k' r' Hin'; members Hin'; simplify_eq; simpl; lia|].
  all: world_simpl; eexists; split; [apply lookup_insert_eq|done].
Qed.

(** The run where transcription yields nothing. *)
Lemma stage_absent_witness :
  faults ready_world = []
  /\ EvStage Transcribe (Ok None)
       ∈ events_since ready_world (snd (_process_dubbing_sync no_transcript 1 ready_world))
  /\ fst (_process_dubbing_sync no_transcript 1 ready_world) = Ok false.
Proof.
  assert (EvStage Transcribe (Ok None)
            ∈ events_since ready_world
                (snd (_process_dubbing_sync no_transcript 1 ready_world))) as Hin.
  { vm_compute. here. }
  split; [reflexivity|]. split; [exact Hin|].
  apply (stage_absent_stops_pipeline no_transcript 1 ready_world Transcribe
           (fst (_process_dubbing_sync no_transcript 1 ready_world))
           (snd (_process_dubbing_sync no_transcript 1 ready_world))
           eq_refl (surjective_pairing _) Hin).
Defined.

(** ** Jobs and references that do not resolve *)




(** ** Cleanup of the extracted audio *)

(** C3, the run that shows the defect: ffmpeg exits with status 1, the job
    ends Failed with the extraction label, and the temporary file that
    [_extract_audio] created for this run is still on disk. *)
Theorem failed_extraction_leaves_temp_file :
  fst (scenario_A broken_ffmpeg language_world) = Ok false
  /\ DubbingJob.status <$> jobs (snd (scenario_A broken_ffmpeg language_world)) !! 1
     = Some FAILED
  /\ jobs (snd (scenario_A broken_ffmpeg language_world)) !! 1
       ≫= DubbingJob.error_message
     = Some "Failed to extract audio from video"
  /\ disk (outside language_world) !! "/tmp/tmpa1b2c3d4.wav" = None
  /\ disk (outside (snd (scenario_A broken_ffmpeg language_world)))
       !! "/tmp/tmpa1b2c3d4.wav" = Some 0.
Proof. vm_compute. repeat split. Qed.

(** Once extraction has handed over an audio file, every exit of the run
    removes it. *)
Lemma extracted_audio_is_removed svc job_id w r w' p :
  faults w = [] ->
  process_dubbing_job svc job_id w = (r, w') ->
  EvStage ExtractAudio (Ok (Some p)) ∈ events_since w w' ->
  p <> "" ->
  disk (outside w') !! p = None.
Proof.
  intros Hf Hrun. wp_start Hrun.
  unfold process_dubbing_job, _process_dubbing_sync.
  destruct (jobs w !! job_id) as [j|] eqn:Hj.
  all: wp_run.
  all: events; simpl app.
  all: intros Hin Hne; members Hin; simplify_eq.
  all: apply lookup_delete_eq.
Qed.

(** ** Strings *)

Lemma app_cons x a b : String x a +:+ b = String x (a +:+ b).
Proof. reflexivity. Qed.

Lemma app_empty b : "" +:+ b = b.
Proof. reflexivity. Qed.

Lemma has_char_app c a b : has_char c (a +:+ b) = has_char c a || has_char c b.
Proof.
  induction a as [|x a IH]; [reflexivity|]. rewrite app_cons. cbn [has_char].
  rewrite IH. now destruct (Ascii.eqb x c).
Qed.

Lemma length_app a b :
  String.length (a +:+ b) = (String.length a + String.length b)%nat.
Proof.
  induction a as [|x a IH]; [reflexivity|]. rewrite app_cons. cbn [String.length].
  now rewrite IH.
Qed.

Lemma app_assoc_string a b c : (a +:+ b) +:+ c = a +:+ (b +:+ c).
Proof.
  induction a as [|x a IH]; [reflexivity|]. rewrite !app_cons. now rewrite IH.
Qed.

Lemma path_name_no_slash p : has_char "/" (path_name p) = false.
Proof.
  induction p as [|c r IH]; [reflexivity|]. cbn [path_name].
  destruct (has_char "/" r) eqn:Hr; [exact IH|].
  destruct (Ascii.eqb c "/") eqn:Hc; [exact Hr|].
  cbn [has_char]. now rewrite Hc, Hr.
Qed.

Lemma has_char_substring c s : forall n m,
  has_char c s = false -> has_char c (substring n m s) = false.
Proof.
  induction s as [|x s IH]; intros n m H.
  - now destruct n, m.
  - cbn [has_char] in H. apply orb_false_iff in H as [Hx Hs].
    destruct n as [|n]; cbn [substring].
    + destruct m as [|m]; [reflexivity|]. cbn [has_char]. rewrite Hx. now apply IH.
    + now apply IH.
Qed.

Lemma path_stem_no_slash p : has_char "/" (path_stem p) = false.
Proof.
  unfold path_stem. pose proof (path_name_no_slash p) as H.
  destruct (rfind "." (path_name p)) as [i|]; [|exact H].
  destruct (_ && _); [|exact H]. now apply has_char_substring.
Qed.

Lemma path_name_after_slash d f :
  has_char "/" f = false -> path_name (d +:+ "/" +:+ f) = f.
Proof.
  intros Hf. induction d as [|c d IH].
  - rewrite app_empty, app_cons, app_empty. cbn [path_name]. rewrite Hf.
    reflexivity.
  - rewrite app_cons. cbn [path_name].
    rewrite has_char_app, app_cons, app_empty. cbn [has_char].
    replace (has_char "/" d || (Ascii.eqb "/" "/" || has_char "/" f)) with true
      by (now rewrite Ascii.eqb_refl, orb_true_r).
    exact IH.
Qed.

Lemma path_join_relative d c f :
  Ascii.eqb c "/" = false -> path_join d (String c f) = d +:+ "/" +:+ String c f.
Proof. intros H. cbn [path_join]. now rewrite H. Qed.

Lemma path_name_join d f :
  has_char "/" f = false -> f <> "" -> path_name (path_join d f) = f.
Proof.
  intros Hf Hne. destruct f as [|c f]; [done|].
  pose proof Hf as Hf0.
  cbn [has_char] in Hf. apply orb_false_iff in Hf as [Hc Hf'].
  rewrite path_join_relative by done. now apply path_name_after_slash.
Qed.

Lemma digit_code n : nat_of_ascii (digit n) = (48 + n mod 10)%nat.
Proof.
  unfold digit. apply nat_ascii_embedding.
  pose proof (Nat.mod_upper_bound n 10). lia.
Qed.

Lemma zero_padded_has_char c width : forall n,
  (nat_of_ascii c < 48)%nat -> has_char c (zero_padded width n) = false.
Proof.
  induction width as [|width IH]; intros n Hc; [reflexivity|].
  cbn [zero_padded]. rewrite has_char_app, IH by done. cbn [has_char orb].
  rewrite orb_false_r. apply Ascii.eqb_neq. intros E.
  pose proof (digit_code n) as Hd. rewrite E in Hd. lia.
Qed.

Lemma zero_padded_length width : forall n, String.length (zero_padded width n) = width.
Proof.
  induction width as [|width IH]; intros n; [reflexivity|].
  cbn [zero_padded]. rewrite length_app, IH. cbn [String.length]. lia.
Qed.

Lemma strftime_has_char c t :
  (nat_of_ascii c < 48)%nat -> has_char c (strftime t) = false.
Proof.
  intros Hc. unfold strftime.
  rewrite !has_char_app, !zero_padded_has_char by done.
  cbn [has_char orb]. rewrite ?orb_false_r. apply Ascii.eqb_neq.
  intros <-. vm_compute in Hc. lia.
Qed.

Lemma strftime_length t : String.length (strftime t) = 15%nat.
Proof. unfold strftime. rewrite !length_app, !zero_padded_length. reflexivity. Qed.

Lemma rfind_app c a b :
  rfind c (a +:+ b) =
    match rfind c b with
    | Some i => Some (String.length a + i)%nat
    | None => rfind c a
    end.
Proof.
  induction a as [|x a IH].
  - rewrite app_empty. now destruct (rfind c b).
  - rewrite app_cons. cbn [rfind String.length]. rewrite IH.
    now destruct (rfind c b).
Qed.

Lemma substring_prefix a b : substring 0 (String.length a) (a +:+ b) = a.
Proof.
  induction a as [|x a IH].
  - rewrite app_empty. now destruct b.
  - rewrite app_cons. cbn [String.length substring]. now rewrite IH.
Qed.

(** The name [save_video] gives an upload with extension [.mp4]. *)
Lemma path_stem_stored_video t :
  path_stem (path_join upload_dir ("video_" +:+ strftime t +:+ ".mp4"))
  = "video_" +:+ strftime t.
Proof.
  assert (has_char "/" ("video_" +:+ strftime t +:+ ".mp4") = false) as Hs.
  { rewrite !has_char_app, strftime_has_char by (vm_compute; lia). reflexivity. }
  unfold path_stem. rewrite path_name_join by (done || discriminate).
  rewrite <- app_assoc_string.
  rewrite rfind_app. cbn [rfind Ascii.eqb Bool.eqb].
  rewrite !length_app, strftime_length. cbn [String.length Nat.add].
  replace ((0 <? 21) && (21 <? 6 + 15 + 4 - 1))%nat with true by reflexivity.
  change 21%nat with (6 + 15)%nat. rewrite <- (strftime_length t).
  change 6%nat with (String.length "video_"). rewrite <- length_app.
  apply substring_prefix.
Qed.

(** ** The output filename *)

(** C4 as stated fails: in scenario A the upload "clip.mp4" gives a Completed
    job whose output filename starts with the stored name [video_..], so it
    does not match [clip_dubbed_es_<timestamp>.mp4]. *)
Lemma scenario_A_output_is_not_named_after_clip :
  fst (scenario_A studio language_world) = Ok true
  /\ Video.original_filename <$> videos (snd (scenario_A studio language_world)) !! 1
     = Some "clip.mp4"
  /\ DubbingJob.status <$> jobs (snd (scenario_A studio language_world)) !! 1
     = Some COMPLETED
  /\ jobs (snd (scenario_A studio language_world)) !! 1 ≫= DubbingJob.output_filename
     = Some "video_20240102_120000_dubbed_es_20240102_120500.mp4"
  /\ ~ matches_pattern "clip_dubbed_es_" ".mp4"
         "video_20240102_120000_dubbed_es_20240102_120500.mp4".
Proof.
  repeat (split; [vm_compute; reflexivity|]).
  intros [mid H]. vm_compute in H. discriminate H.
Qed.

Lemma _replace_video_audio_path env video_path audio_path code o q o' :
  _replace_video_audio env video_path audio_path code o = (Ok (Some q), o') ->
  q = path_join output_dir
        (path_stem video_path +:+ "_dubbed_" +:+ LanguageCode_value code
         +:+ "_" +:+ strftime (clock o) +:+ ".mp4").
Proof.
  unfold _replace_video_audio, try_except, bind, now, path_exists, ret.
  destruct (subprocess_run env _ _ o) as [[cp|e] o1]; [|discriminate].
  destruct (returncode cp =? 0); [|discriminate].
  case_bool_decide; [|discriminate]. intros Heq. now simplify_eq.
Qed.

Lemma dubbed_name_no_slash stem code ts :
  has_char "/" stem = false -> has_char "/" ts = false ->
  has_char "/" (stem +:+ "_dubbed_" +:+ LanguageCode_value code +:+ "_" +:+ ts +:+ ".mp4")
  = false.
Proof.
  intros Hs Ht. rewrite !has_char_app, Hs, Ht. now destruct code.
Qed.

Lemma dubbed_name_not_empty stem rest : stem +:+ "_dubbed_" +:+ rest <> "".
Proof. destruct stem; discriminate. Qed.

Lemma path_name_output video_path code t :
  path_name (path_join output_dir
               (path_stem video_path +:+ "_dubbed_" +:+ LanguageCode_value code
                +:+ "_" +:+ strftime t +:+ ".mp4"))
  = path_stem video_path +:+ "_dubbed_" +:+ LanguageCode_value code
    +:+ "_" +:+ strftime t +:+ ".mp4".
Proof.
  apply path_name_join.
  - apply dubbed_name_no_slash; [apply path_stem_no_slash|].
    apply strftime_has_char. vm_compute; lia.
  - apply dubbed_name_not_empty.
Qed.

Lemma save_video_clip env content mime src w v w1 :
  save_video env content "clip.mp4" mime src w = (Ok v, w1) ->
  Video.original_filename v = "clip.mp4"
  /\ Video.file_path v
     = path_join upload_dir ("video_" +:+ strftime (clock (outside w)) +:+ ".mp4").
Proof.
  unfold save_video.
  change (path_suffix "clip.mp4") with ".mp4".
  unfold VideoUpload_validate, session_add_video, utcnow.
  unfold bind, lift_outside, now, write_file, store_op, ret, raise.
  cbn [outside set_outside disk clock fst snd]. intros Hrun.
  repeat (case_match; simplify_eq; cbn [outside set_outside disk clock] in * ).
  all: done.
Qed.

(** C4 (amended): the output filename of a successful run is the stem of the
    stored video file's path, [_dubbed_], the target language code, [_], the
    timestamp taken at the mux step, and [.mp4]: the timestamp is the clock
    of the outside world in which the mux step starts, the one the first four
    stage methods leave.  An upload named "clip.mp4" is stored by
    [save_video] under [video_<upload timestamp>.mp4], so that stem is
    [video_<upload timestamp>], never [clip]. *)
Theorem output_filename_from_stored_name env :
  (forall job_id w r w',
     faults w = [] ->
     process_dubbing_job (service env) job_id w = (r, w') ->
     r = Ok true ->
     exists j v l speech at_mux q after_mux j',
       jobs w !! job_id = Some j
       /\ videos w !! DubbingJob.source_video_id j = Some v
       /\ head (filter (fun l => Language.id l = DubbingJob.target_language_id j)
                  (languages w)) = Some l
       /\ before_mux env (Video.file_path v) (Language.code l) (outside w)
          = (Ok (Some speech), at_mux)
       /\ _replace_video_audio env (Video.file_path v) speech (Language.code l) at_mux
          = (Ok (Some q), after_mux)
       /\ jobs w' !! job_id = Some j'
       /\ DubbingJob.status j' = COMPLETED
       /\ DubbingJob.output_file_path j' = Some q
       /\ DubbingJob.output_filename j'
          = Some (path_stem (Video.file_path v) +:+ "_dubbed_"
                  +:+ LanguageCode_value (Language.code l) +:+ "_"
                  +:+ strftime (clock at_mux) +:+ ".mp4"))
  /\ (forall content mime src w v w1,
        save_video env content "clip.mp4" mime src w = (Ok v, w1) ->
        Video.original_filename v = "clip.mp4"
        /\ path_stem (Video.file_path v)
           = "video_" +:+ strftime (clock (outside w))).
Proof.
  split.
  - intros job_id w r w' Hf Hrun. wp_start Hrun.
    unfold process_dubbing_job, _process_dubbing_sync.
    destruct (jobs w !! job_id) as [j|] eqn:Hj.
    all: wp_run.
    all: intros Hr; try discriminate Hr.
    cbn [service extract_audio transcribe_audio translate_text generate_ai_speech
         replace_video_audio] in *.
    eexists _, _, _, _, _, _, _, _.
    split; [reflexivity|]. split; [eassumption|]. split; [eassumption|].
    split.
    { unfold before_mux, bind.
      repeat match goal with
             | Hs : ?x = (_, _) |- context [?x] =>
                 rewrite Hs; cbv beta iota; cbn [truthy]
             end.
      reflexivity. }
    split; [eassumption|].
    split; [apply lookup_insert_eq|]. split; [reflexivity|]. split; [reflexivity|].
    cbn [mark_completed DubbingJob.output_filename]. f_equal.
    match goal with
    | H5 : _replace_video_audio env _ _ _ _ = _ |- _ =>
        rewrite (_replace_video_audio_path _ _ _ _ _ _ _ H5)
    end.
    apply path_name_output.
  - intros content mime src w v w1 Hrun.
    apply save_video_clip in Hrun as [Ho Hp]. split; [exact Ho|].
    rewrite Hp. apply path_stem_stored_video.
Qed.

(** Scenario A, from the submitted job on: the upload was stored at noon,
    extraction took five minutes, and the mux step starts at 12:05. *)
Lemma output_filename_witness :
  faults submitted_world = []
  /\ fst (process_dubbing_job (service studio) 1 submitted_world) = Ok true
  /\ exists j',
       jobs (snd (process_dubbing_job (service studio) 1 submitted_world)) !! 1 = Some j'
       /\ DubbingJob.output_filename j'
          = Some "video_20240102_120000_dubbed_es_20240102_120500.mp4".
Proof.
  assert (fst (process_dubbing_job (service studio) 1 submitted_world) = Ok true) as Hok
    by (vm_compute; reflexivity).
  assert (faults submitted_world = []) as Hf by (vm_compute; reflexivity).
  split; [exact Hf|]. split; [exact Hok|].
  destruct (output_filename_from_stored_name studio) as [Hname _].
  pose proof (Hname 1 submitted_world _ _ Hf (surjective_pairing _) Hok) as H.
  destruct H as (j & v & l & sp & o & q & o' & j' & Hj & Hv & Hl & Hb & _ & Hj' & _ & _ & Hout).
  exists j'. split; [exact Hj'|].
  clear Hj'. vm_compute in Hj. injection Hj as <-.
  vm_compute in Hv. injection Hv as <-.
  vm_compute in Hl. injection Hl as <-.
  vm_compute in Hb. injection Hb as _ <-.
  rewrite Hout. vm_compute. reflexivity.
Defined.

(** ** Store operations under any fault schedule *)

Lemma set_faults_same w : set_faults (faults w) w = w.
Proof. now destruct w. Qed.

Lemma wp_store_op (Q : Result unit -> World -> Prop) w :
  (forall fs, Q (Ok tt) (set_faults fs w)) ->
  (forall e fs, Q (Raise e) (set_faults fs w)) ->
  wp store_op Q w.
Proof.
  intros Hok Hex. unfold wp, store_op.
  pose proof (Hok (faults w)) as H0. rewrite set_faults_same in H0.
  destruct (faults w) as [|[e|] fs]; cbn [fst snd]; auto.
Qed.

Lemma wp_session_get_job_any job_id (Q : Result (option DubbingJob.t) -> World -> Prop) w :
  (forall fs, Q (Ok (jobs w !! job_id)) (set_faults fs w)) ->
  (forall e fs, Q (Raise e) (set_faults fs w)) ->
  wp (session_get_job job_id) Q w.
Proof.
  intros Hok Hex. unfold session_get_job. apply wp_bind, wp_store_op; auto.
Qed.

Lemma wp_session_commit_job_any job_id job (Q : Result unit -> World -> Prop) w :
  (forall fs, Q (Ok tt) (add_event (EvStatus job_id (DubbingJob.status job))
                           (set_jobs (<[job_id := job]> (jobs w)) (set_faults fs w)))) ->
  (forall e fs, Q (Raise e) (set_faults fs w)) ->
  wp (session_commit_job job_id job) Q w.
Proof.
  intros Hok Hex. unfold session_commit_job. apply wp_bind, wp_store_op; auto.
Qed.

Lemma wp_session_add_job_any mk_job (Q : Result DubbingJob.t -> World -> Prop) w :
  (forall fs, Q (Ok (mk_job (next_id (jobs w))))
                (add_event (EvStatus (next_id (jobs w))
                              (DubbingJob.status (mk_job (next_id (jobs w)))))
                   (set_jobs (<[next_id (jobs w) := mk_job (next_id (jobs w))]> (jobs w))
                      (set_faults fs w)))) ->
  (forall e fs, Q (Raise e) (set_faults fs w)) ->
  wp (session_add_job mk_job) Q w.
Proof.
  intros Hok Hex. unfold session_add_job. apply wp_bind, wp_store_op; [|auto].
  intros fs. unfold wp. cbv zeta.
  destruct (videos (set_faults fs w) !! _); [|apply (Hex _ fs)].
  destruct (head _); [apply Hok | apply (Hex _ fs)].
Qed.

Lemma wp_utcnow (Q : Result datetime -> World -> Prop) w :
  Q (Ok (clock (outside w))) w -> wp utcnow Q w.
Proof.
  intros H. unfold wp, utcnow, lift_outside, now. cbn [fst snd].
  now rewrite set_outside_same.
Qed.

Lemma wp_size_or_zero p (Q : Result Z -> World -> Prop) w :
  Q (Ok (default 0 (disk (outside w) !! p))) w -> wp (lift_outside (size_or_zero p)) Q w.
Proof.
  intros H. unfold wp, lift_outside, size_or_zero. cbn [fst snd].
  now rewrite set_outside_same.
Qed.

(** ** The invariant of job rows *)

Lemma job_inv_mark_processing j t :
  job_inv j -> not_terminal j -> job_inv (mark_processing j t).
Proof.
  intros (Hc & Ha & He) Hnt. unfold job_inv, outputs_populated, outputs_absent in *.
  cbn [mark_processing DubbingJob.status DubbingJob.output_filename
       DubbingJob.output_file_path DubbingJob.output_file_size
       DubbingJob.error_message].
  split; [discriminate|]. split.
  - intros _. apply Ha. destruct Hnt as [-> | ->]; discriminate.
  - split; [|discriminate]. intros Hs. apply He in Hs.
    destruct Hnt as [H|H]; rewrite H in Hs; discriminate.
Qed.

Lemma job_inv_mark_completed j p n t1 t2 :
  job_inv j -> not_terminal j -> job_inv (mark_completed j p n t1 t2).
Proof.
  intros (Hc & Ha & He) Hnt. unfold job_inv, outputs_populated, outputs_absent in *.
  cbn [mark_completed DubbingJob.status DubbingJob.output_filename
       DubbingJob.output_file_path DubbingJob.output_file_size
       DubbingJob.error_message].
  split; [eauto|]. split; [congruence|].
  split; [|discriminate]. intros Hs. apply He in Hs.
  destruct Hnt as [H|H]; rewrite H in Hs; discriminate.
Qed.

Lemma job_inv_mark_failed j msg t1 t2 :
  job_inv j -> not_terminal j -> job_inv (mark_failed j msg t1 t2).
Proof.
  intros (Hc & Ha & He) Hnt. unfold job_inv, outputs_populated, outputs_absent in *.
  cbn [mark_failed DubbingJob.status DubbingJob.output_filename
       DubbingJob.output_file_path DubbingJob.output_file_size
       DubbingJob.error_message].
  split; [discriminate|]. split; [|split; eauto].
  intros _. apply Ha. destruct Hnt as [-> | ->]; discriminate.
Qed.

Lemma store_inv_insert w W i j :
  store_inv w -> job_inv j -> jobs W = <[i := j]> (jobs w) -> store_inv W.
Proof.
  intros Hw Hj E i' j' Hl. rewrite E in Hl.
  destruct (decide (i = i')) as [->|Hne].
  - rewrite lookup_insert_eq in Hl. congruence.
  - rewrite lookup_insert_ne in Hl by done. eauto.
Qed.

Lemma store_inv_same w W : store_inv w -> jobs W = jobs w -> store_inv W.
Proof. intros Hw E i j Hl. rewrite E in Hl. eauto. Qed.

Lemma finished_world_inv : store_inv finished_world.
Proof.
  intros i j H. cbn [jobs finished_world] in H.
  apply lookup_singleton_Some in H as [_ <-].
  unfold job_inv, outputs_populated, outputs_absent. cbn.
  split; [eauto|]. split; [congruence|].
  split; [intros [? ?]|]; discriminate.
Qed.

(** C5 as stated fails: the Processing start write on a Completed job that
    satisfies the invariant leaves a Processing row with output fields. *)
Lemma processing_write_on_finished_job_breaks_invariant :
  store_inv finished_world
  /\ ~ store_inv (snd (start_processing 1 finished_world)).
Proof.
  split; [apply finished_world_inv|].
  intros H.
  destruct (H 1 (mark_processing finished_job noon)) as (_ & Ha & _).
  - vm_compute. reflexivity.
  - destruct Ha as (Hn & _); [discriminate|]. discriminate Hn.
Qed.

Ltac inv_leaf :=
  first
    [ eapply store_inv_same; [eassumption | reflexivity]
    | eapply store_inv_insert; [eassumption | | reflexivity];
      eauto using job_inv_mark_processing, job_inv_mark_completed, job_inv_mark_failed ].

(** C5 (amended): job creation, the Processing start write, the success write
    and the error write keep the invariant of job rows, under every fault
    schedule of the store, when the row they write is not yet terminal. *)
Theorem job_writes_keep_invariant w :
  store_inv w ->
  (forall vid lid r w', create_dubbing_job vid lid w = (r, w') -> store_inv w')
  /\ (forall job_id r w',
        open_job job_id w -> start_processing job_id w = (r, w') -> store_inv w')
  /\ (forall job_id p r w',
        open_job job_id w -> _update_job_success job_id p w = (r, w') -> store_inv w')
  /\ (forall job_id msg r w',
        open_job job_id w -> _update_job_error job_id msg w = (r, w') -> store_inv w').
Proof.
  intros Hinv. split; [|split; [|split]].
  - intros vid lid r w' Hrun. wp_start Hrun. unfold create_dubbing_job.
    apply wp_bind, wp_utcnow. apply wp_bind, wp_utcnow.
    apply wp_session_add_job_any; intros; [|inv_leaf].
    eapply store_inv_insert; [eassumption | | reflexivity].
    unfold job_inv, outputs_populated, outputs_absent. cbn.
    split; [discriminate|]. split; [done|]. split; [intros [? ?]|]; discriminate.
  - intros job_id r w' Hopen Hrun. wp_start Hrun. unfold start_processing.
    apply wp_bind, wp_session_get_job_any; intros; [|inv_leaf].
    destruct (jobs w !! job_id) as [j|] eqn:Hj; [|apply wp_ret; inv_leaf].
    apply wp_bind, wp_utcnow. apply wp_bind.
    apply wp_session_commit_job_any; intros; [|inv_leaf].
    apply wp_ret. inv_leaf.
  - intros job_id p r w' Hopen Hrun. wp_start Hrun. unfold _update_job_success.
    apply wp_try_except, wp_bind, wp_size_or_zero.
    apply wp_bind, wp_session_get_job_any; intros; [|apply wp_ret; inv_leaf].
    destruct (jobs w !! job_id) as [j|] eqn:Hj; [|apply wp_ret; inv_leaf].
    apply wp_bind, wp_utcnow. apply wp_bind, wp_utcnow.
    apply wp_session_commit_job_any; intros; [|apply wp_ret]; inv_leaf.
  - intros job_id msg r w' Hopen Hrun. wp_start Hrun. unfold _update_job_error.
    apply wp_try_except.
    apply wp_bind, wp_session_get_job_any; intros; [|apply wp_ret; inv_leaf].
    destruct (jobs w !! job_id) as [j|] eqn:Hj; [|apply wp_ret; inv_leaf].
    apply wp_bind, wp_utcnow. apply wp_bind, wp_utcnow.
    apply wp_session_commit_job_any; intros; [|apply wp_ret]; inv_leaf.
Qed.

Lemma pending_world_inv : store_inv pending_world.
Proof.
  intros i j H. cbn [jobs pending_world] in H.
  apply lookup_singleton_Some in H as [_ <-].
  unfold job_inv, outputs_populated, outputs_absent. cbn.
  split; [discriminate|]. split; [done|]. split; [intros [? ?]|]; discriminate.
Defined.

Lemma pending_world_open : open_job 1 pending_world.
Proof.
  intros j H. cbn [jobs pending_world] in H.
  apply lookup_singleton_Some in H as [_ <-]. left. reflexivity.
Defined.

(** The error write on a Pending job. *)
Lemma job_writes_witness :
  store_inv pending_world
  /\ open_job 1 pending_world
  /\ store_inv (snd (_update_job_error 1 "Failed to transcribe audio" pending_world)).
Proof.
  split; [apply pending_world_inv|]. split; [apply pending_world_open|].
  destruct (job_writes_keep_invariant pending_world pending_world_inv)
    as (_ & _ & _ & Herr).
  apply (Herr 1 "Failed to transcribe audio"
           (fst (_update_job_error 1 "Failed to transcribe audio" pending_world))
           (snd (_update_job_error 1 "Failed to transcribe audio" pending_world))
           pending_world_open (surjective_pairing _)).
Defined.

(** ** Reading the output path *)

Lemma path_exists_lifted p w :
  lift_outside (path_exists p) w = (Ok (bool_decide (is_Some (disk (outside w) !! p))), w).
Proof. unfold lift_outside, path_exists. now rewrite set_outside_same. Qed.

Lemma get_output_file_path_healthy job_id w :
  faults w = [] ->
  get_output_file_path job_id w =
    (Ok match jobs w !! job_id with
        | Some job =>
            match DubbingJob.status job, truthy (DubbingJob.output_file_path job) with
            | COMPLETED, Some p =>
                if bool_decide (is_Some (disk (outside w) !! p)) then Some p else None
            | _, _ => None
            end
        | None => None
        end, w).
Proof.
  intros Hf. unfold get_output_file_path, bind.
  rewrite session_get_job_healthy by done.
  destruct (jobs w !! job_id) as [job|]; [|reflexivity].
  destruct (DubbingJob.status job); try reflexivity.
  destruct (truthy _); [|reflexivity].
  rewrite path_exists_lifted. now case_bool_decide.
Qed.

Lemma truthy_Some x p : truthy x = Some p <-> x = Some p /\ p <> "".
Proof.
  destruct x as [[|a s]|]; cbn; split.
  all: try (intros H; discriminate H).
  all: try (intros [H1 H2]; congruence).
  intros H. simplify_eq. done.
Qed.

(** C6: on a working store [get_output_file_path] changes nothing and returns
    a path exactly when the job exists, is Completed, and its recorded
    (non-empty) output path is on disk now; a missing job gives [None], and
    so does the next call once the file is deleted. *)
Theorem output_path_iff_completed_and_on_disk job_id w :
  faults w = [] ->
  exists r,
    get_output_file_path job_id w = (Ok r, w)
    /\ (forall p, r = Some p <->
          exists j, jobs w !! job_id = Some j
                    /\ DubbingJob.status j = COMPLETED
                    /\ DubbingJob.output_file_path j = Some p /\ p <> ""
                    /\ is_Some (disk (outside w) !! p))
    /\ (jobs w !! job_id = None -> r = None)
    /\ (forall p, r = Some p ->
          get_output_file_path job_id (unlinked p w) = (Ok None, unlinked p w)).
Proof.
  intros Hf. eexists. split; [apply get_output_file_path_healthy, Hf|].
  split; [|split].
  - intros p. destruct (jobs w !! job_id) as [j|] eqn:Hj.
    + split.
      * intros H. exists j. split; [done|].
        destruct (DubbingJob.status j); try discriminate.
        destruct (truthy _) as [q|] eqn:Ht; [|discriminate].
        case_bool_decide; [|discriminate]. simplify_eq.
        apply truthy_Some in Ht as [? ?]. done.
      * intros (j' & ? & Hs & Hp & Hne & Hd). simplify_eq. rewrite Hs.
        assert (truthy (DubbingJob.output_file_path j') = Some p) as ->
          by (apply truthy_Some; done).
        now rewrite bool_decide_true.
    + split; [discriminate|]. intros (j' & ? & _). discriminate.
  - now intros ->.
  - intros p Hr. rewrite get_output_file_path_healthy by done.
    f_equal. f_equal. cbn [unlinked jobs set_outside outside disk].
    destruct (jobs w !! job_id) as [j|]; [|reflexivity].
    destruct (DubbingJob.status j); try reflexivity.
    destruct (truthy _) as [q|]; [|reflexivity].
    case_bool_decide; [|discriminate]. simplify_eq.
    rewrite bool_decide_false; [reflexivity|].
    rewrite lookup_delete_eq. intros [? ?]; discriminate.
Qed.

(** The finished job, whose output file is on disk. *)
Lemma output_path_witness :
  faults finished_world = []
  /\ exists r,
       get_output_file_path 1 finished_world = (Ok r, finished_world)
       /\ r = Some "outputs/video_20240102_115500_dubbed_es_20240102_120000.mp4".
Proof.
  split; [reflexivity|].
  destruct (output_path_iff_completed_and_on_disk 1 finished_world eq_refl)
    as (r & Hrun & Hiff & _).
  exists r. split; [exact Hrun|].
  apply Hiff. exists finished_job.
  repeat split; try reflexivity; try discriminate.
  vm_compute. eauto.
Defined.

(** ** Languages *)

Lemma session_select_languages_healthy cond w :
  faults w = [] ->
  session_select_languages cond w = (Ok (List.filter cond (languages w)), w).
Proof.
  intros Hf. unfold session_select_languages, bind. now rewrite store_op_healthy.
Qed.

Lemma filter_andb {A} (f g : A -> bool) l :
  List.filter (fun x => f x && g x) l = List.filter g (List.filter f l).
Proof.
  induction l as [|x l IH]; [reflexivity|]. cbn.
  destruct (f x); cbn; [destruct (g x)|]; now rewrite IH.
Qed.

Lemma filter_all {A} (f : A -> bool) l :
  (forall x, In x l -> f x = true) -> List.filter f l = l.
Proof.
  induction l as [|x l IH]; intros H; [reflexivity|]. cbn.
  rewrite H by (now left). f_equal. apply IH. intros y Hy. apply H. now right.
Qed.

(** C9: on a working store [get_target_languages] returns what
    [get_languages] returns without the rows whose id is the source id, in
    the same order: exactly the active languages with another id; when no
    active language has that id it returns all of them. *)
Theorem target_languages_are_active_others source_language_id w :
  faults w = [] ->
  exists actives targets,
    get_languages w = (Ok actives, w)
    /\ get_target_languages source_language_id w = (Ok targets, w)
    /\ targets = List.filter (fun l => negb (Language.id l =? source_language_id)) actives
    /\ (forall l, In l targets <->
          In l (languages w) /\ Language.is_active l = true
          /\ Language.id l <> source_language_id)
    /\ ((forall l, In l (languages w) -> Language.is_active l = true ->
           Language.id l <> source_language_id) -> targets = actives).
Proof.
  intros Hf. unfold get_languages, get_target_languages.
  rewrite !session_select_languages_healthy by done.
  eexists _, _. split; [reflexivity|]. split; [reflexivity|].
  split; [apply filter_andb|]. split.
  - intros l. rewrite filter_In, andb_true_iff, negb_true_iff, Z.eqb_neq. tauto.
  - intros H. rewrite filter_andb. apply filter_all.
    intros l Hl. apply filter_In in Hl as [Hin Hact].
    apply negb_true_iff, Z.eqb_neq. auto.
Qed.

(** English as the source, and an id that no language has. *)
Lemma target_languages_witness :
  faults language_world = []
  /\ get_target_languages 1 language_world = (Ok [spanish; french; german], language_world)
  /\ get_target_languages 999 language_world = (Ok four_languages, language_world).
Proof.
  split; [reflexivity|].
  destruct (target_languages_are_active_others 1 language_world eq_refl)
    as (a1 & t1 & Ha1 & Ht1 & E1 & _).
  destruct (target_languages_are_active_others 999 language_world eq_refl)
    as (a2 & t2 & Ha2 & Ht2 & E2 & _).
  rewrite Ht1, Ht2, E1, E2.
  vm_compute in Ha1. vm_compute in Ha2. simplify_eq. split; reflexivity.
Defined.

(** ** Never raising *)

Lemma no_raise_update_job_error job_id msg : no_raise (_update_job_error job_id msg).
Proof.
  intros w. unfold _update_job_error, try_except.
  match goal with |- context [match ?b w with _ => _ end] => destruct (b w) as [[[]|e] w1] end;
    eauto.
Qed.

Lemma no_raise_try_except {S A} (body : SE S A) handler :
  (forall e, no_raise (handler e)) -> no_raise (try_except body handler).
Proof.
  intros H s. unfold try_except. destruct (body s) as [[a|e] s1].
  - eauto.
  - apply H.
Qed.

Lemma no_raise_then_ret {S A B} (m : SE S A) (b : B) :
  no_raise m -> no_raise (m ;;; ret b).
Proof.
  intros H s. unfold bind. destruct (H s) as (a & s1 & ->). unfold ret. eauto.
Qed.

(** C7: whatever the stage methods and the store do, also when they raise,
    [process_dubbing_job] returns a boolean; no exception leaves it. *)
Theorem process_dubbing_job_returns_bool svc job_id w :
  exists b w', process_dubbing_job svc job_id w = (Ok b, w').
Proof.
  apply no_raise_try_except. intros e.
  apply no_raise_then_ret, no_raise_update_job_error.
Qed.

(** C8: for an existing job the Processing write, with its start timestamp,
    is the first thing a run does: every stage invocation comes after it, no
    later write sets the status back, and the row is never Pending again. *)
Theorem processing_write_precedes_stages svc job_id w j r w' :
  faults w = [] ->
  jobs w !! job_id = Some j ->
  process_dubbing_job svc job_id w = (r, w') ->
  exists rest,
    events_since w w' = EvStatus job_id PROCESSING :: rest
    /\ (forall k ro, EvStage k ro ∈ events_since w w' -> EvStage k ro ∈ rest)
    /\ (forall s, EvStatus job_id s ∈ rest -> s = COMPLETED \/ s = FAILED)
    /\ exists j', jobs w' !! job_id = Some j'
                  /\ DubbingJob.status j' <> PENDING
                  /\ DubbingJob.processing_started_at j' = Some (clock (outside w)).
Proof.
  intros Hf Hj Hrun. wp_start Hrun.
  unfold process_dubbing_job, _process_dubbing_sync.
  wp_run.
  all: events; simpl app.
  all: eexists; split; [reflexivity|].
  all: split; [intros k' r' Hin'; members Hin'; simplify_eq;
               repeat first [apply list_elem_of_here | apply list_elem_of_further]|].
  all: split; [intros s' Hin'; members Hin'; simplify_eq; auto|].
  all: world_simpl; eexists; split; [apply lookup_insert_eq|done].
Qed.

(** The run where transcription yields nothing, from submission on. *)
Lemma processing_write_witness :
  faults ready_world = []
  /\ jobs ready_world !! 1 = Some pending_job
  /\ exists rest,
       events_since ready_world (snd (process_dubbing_job no_transcript 1 ready_world))
       = EvStatus 1 PROCESSING :: rest.
Proof.
  split; [reflexivity|]. split; [reflexivity|].
  destruct (processing_write_precedes_stages no_transcript 1 ready_world pending_job
              (fst (process_dubbing_job no_transcript 1 ready_world))
              (snd (process_dubbing_job no_transcript 1 ready_world))
              eq_refl eq_refl (surjective_pairing _)) as (rest & Hev & _).
  exists rest. exact Hev.
Defined.

(** ** Creating a job *)

Lemma le_foldr_max (l : list Z) x : x ∈ l -> x <= foldr Z.max 0 l.
Proof.
  induction l as [|y l IH]; intros H.
  - now apply elem_of_nil in H.
  - apply elem_of_cons in H as [->|H]; cbn; [lia|]. specialize (IH H). lia.
Qed.

Lemma next_id_fresh {V} (m : gmap Z V) : m !! next_id m = None.
Proof.
  destruct (m !! next_id m) as [v|] eqn:E; [|reflexivity]. exfalso.
  assert (next_id m ∈ map fst (map_to_list m)) as Hin.
  { apply (list_elem_of_fmap_2 fst _ (next_id m, v)).
    now apply elem_of_map_to_list. }
  apply le_foldr_max in Hin. unfold next_id in Hin at 1. lia.
Qed.

Lemma session_add_job_healthy mk_job w :
  faults w = [] ->
  session_add_job mk_job w =
    match videos w !! DubbingJob.source_video_id (mk_job (next_id (jobs w))),
          head (filter (fun l => Language.id l
                                 = DubbingJob.target_language_id (mk_job (next_id (jobs w))))
                  (languages w)) with
    | Some _, Some _ =>
        (Ok (mk_job (next_id (jobs w))),
         add_event (EvStatus (next_id (jobs w))
                      (DubbingJob.status (mk_job (next_id (jobs w)))))
           (set_jobs (<[next_id (jobs w) := mk_job (next_id (jobs w))]> (jobs w)) w))
    | _, _ => (Raise "IntegrityError", w)
    end.
Proof.
  intros Hf. unfold session_add_job, bind. now rewrite store_op_healthy.
Qed.

Lemma create_dubbing_job_healthy v l w :
  faults w = [] ->
  create_dubbing_job v l w =
    match videos w !! v,
          head (filter (fun row => Language.id row = l) (languages w)) with
    | Some _, Some _ =>
        (Ok (DubbingJob.mk (next_id (jobs w)) v l PENDING None None None None None None
               (clock (outside w)) (clock (outside w))),
         add_event (EvStatus (next_id (jobs w)) PENDING)
           (set_jobs (<[next_id (jobs w) :=
                         DubbingJob.mk (next_id (jobs w)) v l PENDING None None None None
                           None None (clock (outside w)) (clock (outside w))]> (jobs w)) w))
    | _, _ => (Raise "IntegrityError", w)
    end.
Proof.
  intros Hf. unfold create_dubbing_job, bind, utcnow, lift_outside, now.
  rewrite !set_outside_same. rewrite session_add_job_healthy by done.
  cbn [DubbingJob.source_video_id DubbingJob.target_language_id DubbingJob.status].
  reflexivity.
Qed.

(** C10 as stated fails: the ids 41 and 999 resolve to no video and no
    language, and the store refuses the row: [create_dubbing_job] raises and
    there is no new job. *)
Lemma create_dubbing_job_refuses_unknown_ids :
  faults language_world = []
  /\ videos language_world !! 41 = None
  /\ create_dubbing_job 41 999 language_world = (Raise "IntegrityError", language_world).
Proof. split; [reflexivity|]. split; reflexivity. Qed.

(** C10 (amended): [create_dubbing_job] checks nothing itself, the foreign
    keys of the store decide.  On a working store, for ids that resolve to a
    video and a language (which may be the video's own language), it returns
    a new row, stored under a fresh key, that is Pending with no output
    field, no processing timestamp and no error message; when one of the ids
    resolves to nothing it raises and nothing is written. *)
Theorem create_dubbing_job_is_pending source_video_id target_language_id w :
  faults w = [] ->
  (is_Some (videos w !! source_video_id) ->
   is_Some (head (filter (fun l => Language.id l = target_language_id) (languages w))) ->
   exists j w',
     create_dubbing_job source_video_id target_language_id w = (Ok j, w')
     /\ DubbingJob.source_video_id j = source_video_id
     /\ DubbingJob.target_language_id j = target_language_id
     /\ DubbingJob.status j = PENDING
     /\ DubbingJob.output_filename j = None
     /\ DubbingJob.output_file_path j = None
     /\ DubbingJob.output_file_size j = None
     /\ DubbingJob.processing_started_at j = None
     /\ DubbingJob.processing_completed_at j = None
     /\ DubbingJob.error_message j = None
     /\ jobs w !! DubbingJob.id j = None
     /\ jobs w' = <[DubbingJob.id j := j]> (jobs w)
     /\ videos w' = videos w /\ languages w' = languages w)
  /\ (videos w !! source_video_id = None
      \/ head (filter (fun l => Language.id l = target_language_id) (languages w)) = None ->
      exists e, create_dubbing_job source_video_id target_language_id w = (Raise e, w)).
Proof.
  intros Hf. rewrite create_dubbing_job_healthy by done. split.
  - intros [v ->] [l ->].
    eexists _, _. split; [reflexivity|]. cbn.
    repeat (split; [reflexivity|]). split; [apply next_id_fresh|].
    repeat split.
  - intros [-> | Hl]; [eauto|].
    rewrite Hl. destruct (videos w !! source_video_id); eauto.
Qed.

(** English for the stored video, whose own language is English. *)
Lemma create_dubbing_job_witness :
  faults ready_world = []
  /\ Video.source_language_id <$> videos ready_world !! 1 = Some 1
  /\ exists j w', create_dubbing_job 1 1 ready_world = (Ok j, w')
                  /\ DubbingJob.status j = PENDING.
Proof.
  split; [reflexivity|]. split; [reflexivity|].
  destruct (create_dubbing_job_is_pending 1 1 ready_world eq_refl) as [Hok _].
  destruct Hok as (j & w' & Hrun & _ & _ & Hs & _).
  - exists stored_video. reflexivity.
  - exists english. reflexivity.
  - exists j, w'. split; assumption.
Defined.

(** * Further properties of the pipeline *)

(** X1: on a working store the stage methods are invoked in the fixed order
    extract, transcribe, translate, synthesize, mux, each at most once and
    none skipped: the stages of a run are a prefix of that order. *)
Theorem stages_run_in_fixed_order svc job_id w r w' :
  faults w = [] ->
  process_dubbing_job svc job_id w = (r, w') ->
  stages_invoked (events_since w w') `prefix_of` stage_order.
Proof.
  intros Hf Hrun. wp_start Hrun.
  unfold process_dubbing_job, _process_dubbing_sync.
  destruct (jobs w !! job_id) as [j|] eqn:Hj.
  all: wp_run.
  all: events; simpl app; cbn [stages_invoked omap list_omap].
  all: eexists; reflexivity.
Qed.

(** The run where transcription yields nothing stops after two stages. *)
Lemma stages_in_order_witness :
  faults ready_world = []
  /\ stages_invoked
       (events_since ready_world (snd (process_dubbing_job no_transcript 1 ready_world)))
     `prefix_of` stage_order.
Proof.
  split; [reflexivity|].
  apply (stages_run_in_fixed_order no_transcript 1 ready_world
           (fst (process_dubbing_job no_transcript 1 ready_world))
           (snd (process_dubbing_job no_transcript 1 ready_world))
           eq_refl (surjective_pairing _)).
Defined.

(** X2: an empty string counts as no result: when stage [k] returns [""] the
    run stops like for [None], with the label of stage [k]. *)
Theorem stage_empty_result_stops_pipeline svc job_id w k r w' :
  faults w = [] ->
  _process_dubbing_sync svc job_id w = (r, w') ->
  EvStage k (Ok (Some "")) ∈ events_since w w' ->
  r = Ok false
  /\ (forall k' r', EvStage k' r' ∈ events_since w w' ->
                    (stage_index k' <= stage_index k)%nat)
  /\ exists j, jobs w' !! job_id = Some j
               /\ DubbingJob.status j = FAILED
               /\ DubbingJob.error_message j = Some (stage_label k).
Proof.
  intros Hf Hrun. wp_start Hrun.
  unfold _process_dubbing_sync.
  wp_run.
  all: events; simpl app.
  all: intros Hin; members Hin; simplify_eq.
  all: split; [reflexivity|].
  all: split; [intros k' r' Hin'; members Hin'; simplify_eq; simpl; lia|].
  all: world_simpl; eexists; split; [apply lookup_insert_eq|done].
Qed.

(** The run where transcription returns the empty string. *)
Lemma stage_empty_result_witness :
  faults ready_world = []
  /\ EvStage Transcribe (Ok (Some ""))
       ∈ events_since ready_world
           (snd (_process_dubbing_sync empty_transcript 1 ready_world))
  /\ fst (_process_dubbing_sync empty_transcript 1 ready_world) = Ok false.
Proof.
  assert (EvStage Transcribe (Ok (Some ""))
            ∈ events_since ready_world
                (snd (_process_dubbing_sync empty_transcript 1 ready_world))) as Hin.
  { vm_compute. here. }
  split; [reflexivity|]. split; [exact Hin|].
  apply (stage_empty_result_stops_pipeline empty_transcript 1 ready_world Transcribe
           (fst (_process_dubbing_sync empty_transcript 1 ready_world))
           (snd (_process_dubbing_sync empty_transcript 1 ready_world))
           eq_refl (surjective_pairing _) Hin).
Defined.

(** X3: when a stage method raises, the exception is absorbed: no later
    stage is invoked, the run returns [False] and the job row is Failed with
    the text of the exception as its error message. *)
Theorem stage_exception_becomes_failed_job svc job_id w k e r w' :
  faults w = [] ->
  _process_dubbing_sync svc job_id w = (r, w') ->
  EvStage k (Raise e) ∈ events_since w w' ->
  r = Ok false
  /\ (forall k' r', EvStage k' r' ∈ events_since w w' ->
                    (stage_index k' <= stage_index k)%nat)
  /\ exists j, jobs w' !! job_id = Some j
               /\ DubbingJob.status j = FAILED
               /\ DubbingJob.error_message j = Some e.
Proof.
  intros Hf Hrun. wp_start Hrun.
  unfold _process_dubbing_sync.
  wp_run.
  all: events; simpl app.
  all: intros Hin; members Hin; simplify_eq.
  all: split; [reflexivity|].
  all: split; [intros k' r' Hin'; members Hin'; simplify_eq; simpl; lia|].
  all: world_simpl; eexists; split; [apply lookup_insert_eq|done].
Qed.

(** The run where the translation call raises. *)
Lemma stage_exception_witness :
  faults ready_world = []
  /\ EvStage Translate (Raise "rate limit exceeded")
       ∈ events_since ready_world
           (snd (_process_dubbing_sync failing_translation 1 ready_world))
  /\ fst (_process_dubbing_sync failing_translation 1 ready_world) = Ok false.
Proof.
  assert (EvStage Translate (Raise "rate limit exceeded")
            ∈ events_since ready_world
                (snd (_process_dubbing_sync failing_translation 1 ready_world))) as Hin.
  { vm_compute. here. }
  split; [reflexivity|]. split; [exact Hin|].
  apply (stage_exception_becomes_failed_job failing_translation 1 ready_world
           Translate "rate limit exceeded"
           (fst (_process_dubbing_sync failing_translation 1 ready_world))
           (snd (_process_dubbing_sync failing_translation 1 ready_world))
           eq_refl (surjective_pairing _) Hin).
Defined.

(** X4: on a working store a run on an existing job commits that job exactly
    twice and no other: Processing, then Completed when it returns [True] or
    Failed when it returns [False]; the row ends in that status. *)
Theorem run_writes_processing_then_terminal svc job_id w j r w' :
  faults w = [] ->
  jobs w !! job_id = Some j ->
  process_dubbing_job svc job_id w = (r, w') ->
  exists s,
    status_writes (events_since w w') = [(job_id, PROCESSING); (job_id, s)]
    /\ (s = COMPLETED /\ r = Ok true \/ s = FAILED /\ r = Ok false)
    /\ DubbingJob.status <$> jobs w' !! job_id = Some s.
Proof.
  intros Hf Hj Hrun. wp_start Hrun.
  unfold process_dubbing_job, _process_dubbing_sync.
  wp_run.
  all: events; simpl app; cbn [status_writes omap list_omap].
  all: eexists; split; [reflexivity|]; split; [auto|].
  all: world_simpl; rewrite lookup_insert_eq; reflexivity.
Qed.

(** The run where transcription yields nothing ends Failed. *)
Lemma run_writes_witness :
  faults ready_world = []
  /\ jobs ready_world !! 1 = Some pending_job
  /\ exists s,
       status_writes
         (events_since ready_world (snd (process_dubbing_job no_transcript 1 ready_world)))
       = [(1, PROCESSING); (1, s)].
Proof.
  split; [reflexivity|]. split; [reflexivity|].
  destruct (run_writes_processing_then_terminal no_transcript 1 ready_world pending_job
              (fst (process_dubbing_job no_transcript 1 ready_world))
              (snd (process_dubbing_job no_transcript 1 ready_world))
              eq_refl eq_refl (surjective_pairing _)) as (s & Hs & _).
  exists s. exact Hs.
Defined.

(** X5: on a working store a run returns [True] exactly when the mux stage
    was reached and gave a non-empty path [q]; then all five stages ran in
    order with non-empty results, and the row is Completed with [q] as output
    path, its last component as output filename, the start timestamp of the
    run, and the error message it had before. *)
Theorem successful_run_records_output svc job_id w r w' :
  faults w = [] ->
  process_dubbing_job svc job_id w = (r, w') ->
  (r = Ok true <->
   exists q, q <> "" /\ EvStage MuxOutput (Ok (Some q)) ∈ events_since w w')
  /\ (r = Ok true ->
      exists j a t tr sp q j',
        jobs w !! job_id = Some j
        /\ events_since w w' =
             [EvStatus job_id PROCESSING;
              EvStage ExtractAudio (Ok (Some a)); EvStage Transcribe (Ok (Some t));
              EvStage Translate (Ok (Some tr)); EvStage SynthesizeSpeech (Ok (Some sp));
              EvStage MuxOutput (Ok (Some q)); EvStatus job_id COMPLETED]
        /\ a <> "" /\ t <> "" /\ tr <> "" /\ sp <> "" /\ q <> ""
        /\ jobs w' !! job_id = Some j'
        /\ DubbingJob.status j' = COMPLETED
        /\ DubbingJob.output_file_path j' = Some q
        /\ DubbingJob.output_filename j' = Some (path_name q)
        /\ is_Some (DubbingJob.output_file_size j')
        /\ DubbingJob.processing_started_at j' = Some (clock (outside w))
        /\ is_Some (DubbingJob.processing_completed_at j')
        /\ DubbingJob.error_message j' = DubbingJob.error_message j).
Proof.
  intros Hf Hrun. wp_start Hrun.
  unfold process_dubbing_job, _process_dubbing_sync.
  destruct (jobs w !! job_id) as [j|] eqn:Hj.
  all: wp_run.
  all: events; simpl app.
  all: split;
    [ split;
      [ intros Hr;
        first [ discriminate Hr | eexists; split; [|here]; discriminate ]
      | intros (q & Hq & Hin); members Hin; simplify_eq; reflexivity ]
    | intros Hr; try discriminate Hr ].
  do 7 eexists. split; [reflexivity|]. split; [reflexivity|].
  repeat (split; [discriminate|]).
  world_simpl. split; [apply lookup_insert_eq|].
  cbn. repeat split; eauto.
Qed.

(** Scenario A from the submitted job on. *)
Lemma successful_run_witness :
  faults submitted_world = []
  /\ (fst (process_dubbing_job (service studio) 1 submitted_world) = Ok true <->
      exists q, q <> ""
        /\ EvStage MuxOutput (Ok (Some q))
             ∈ events_since submitted_world
                 (snd (process_dubbing_job (service studio) 1 submitted_world))).
Proof.
  assert (faults submitted_world = []) as Hf by (vm_compute; reflexivity).
  split; [exact Hf|].
  apply (successful_run_records_output (service studio) 1 submitted_world
           (fst (process_dubbing_job (service studio) 1 submitted_world))
           (snd (process_dubbing_job (service studio) 1 submitted_world))
           Hf (surjective_pairing _)).
Defined.

(** X6: on a working store a whole run keeps the invariant of job rows when
    the job it is given is not yet terminal, whatever the stage methods
    do. *)
Theorem run_keeps_invariant svc job_id w r w' :
  faults w = [] ->
  store_inv w ->
  open_job job_id w ->
  process_dubbing_job svc job_id w = (r, w') ->
  store_inv w'.
Proof.
  intros Hf Hinv Hopen Hrun. wp_start Hrun.
  unfold process_dubbing_job, _process_dubbing_sync.
  destruct (jobs w !! job_id) as [j|] eqn:Hj.
  all: wp_run.
  all: try (eapply store_inv_same; [eassumption | reflexivity]).
  all: eapply store_inv_insert;
    [ exact Hinv | | world_simpl; rewrite ?insert_insert_eq; reflexivity ].
  all: first [ apply job_inv_mark_failed | apply job_inv_mark_completed ];
    [ apply job_inv_mark_processing; eauto | right; reflexivity ].
Qed.

(** The run where transcription yields nothing, on the Pending job. *)
Lemma run_keeps_invariant_witness :
  faults ready_world = []
  /\ store_inv ready_world
  /\ open_job 1 ready_world
  /\ store_inv (snd (process_dubbing_job no_transcript 1 ready_world)).
Proof.
  assert (store_inv ready_world) as Hinv by exact pending_world_inv.
  assert (open_job 1 ready_world) as Hopen by exact pending_world_open.
  split; [reflexivity|]. split; [exact Hinv|]. split; [exact Hopen|].
  apply (run_keeps_invariant no_transcript 1 ready_world
           (fst (process_dubbing_job no_transcript 1 ready_world))
           (snd (process_dubbing_job no_transcript 1 ready_world))
           eq_refl Hinv Hopen (surjective_pairing _)).
Defined.

Lemma keeps_files_ret {A} (a : A) : keeps_files (ret a).
Proof. intros o r o' q H. unfold ret in H. now simplify_eq. Qed.

Ltac kept q :=
  repeat match goal with
  | Hk : forall v, keeps_files (extract_audio ?svc v),
    H : extract_audio ?svc ?v ?o = (?r, ?o') |- _ => pose proof (Hk v o r o' q H); clear H
  | Hk : forall a, keeps_files (transcribe_audio ?svc a),
    H : transcribe_audio ?svc ?a ?o = (?r, ?o') |- _ => pose proof (Hk a o r o' q H); clear H
  | Hk : forall t c, keeps_files (translate_text ?svc t c),
    H : translate_text ?svc ?t ?c ?o = (?r, ?o') |- _ =>
      pose proof (Hk t c o r o' q H); clear H
  | Hk : forall t c, keeps_files (generate_ai_speech ?svc t c),
    H : generate_ai_speech ?svc ?t ?c ?o = (?r, ?o') |- _ =>
      pose proof (Hk t c o r o' q H); clear H
  | Hk : forall v a c, keeps_files (replace_video_audio ?svc v a c),
    H : replace_video_audio ?svc ?v ?a ?c ?o = (?r, ?o') |- _ =>
      pose proof (Hk v a c o r o' q H); clear H
  end.

Ltac chain :=
  repeat match goal with
  | H : is_Some (disk ?o !! ?q) -> is_Some (disk ?o' !! ?q)
    |- is_Some (disk ?o' !! ?q) => apply H
  end.

(** X7: the pipeline itself deletes one file only, the audio file that
    extraction returned: with stage methods that remove no file, every file
    that was on disk before the run and is not that audio file is still
    there after it (the uploaded video, earlier outputs). *)
Theorem run_deletes_only_extracted_audio svc job_id w r w' q :
  faults w = [] ->
  adapters_keep_files svc ->
  process_dubbing_job svc job_id w = (r, w') ->
  is_Some (disk (outside w) !! q) ->
  (forall a, EvStage ExtractAudio (Ok (Some a)) ∈ events_since w w' -> a <> q) ->
  is_Some (disk (outside w') !! q).
Proof.
  intros Hf (K1 & K2 & K3 & K4 & K5) Hrun. wp_start Hrun.
  unfold process_dubbing_job, _process_dubbing_sync.
  destruct (jobs w !! job_id) as [j|] eqn:Hj.
  all: wp_run.
  all: events; simpl app.
  all: intros Hq Hne; world_simpl.
  all: try (rewrite lookup_delete_ne by (apply Hne; here)).
  all: kept q; chain; assumption.
Qed.

Lemma no_transcript_keeps_files : adapters_keep_files no_transcript.
Proof. repeat split; intros; apply keeps_files_ret. Defined.

(** The uploaded video survives the run where transcription yields nothing. *)
Lemma run_deletes_witness :
  faults ready_world = []
  /\ adapters_keep_files no_transcript
  /\ is_Some (disk (outside ready_world) !! "uploads/video_20240102_115500.mp4")
  /\ is_Some (disk (outside (snd (process_dubbing_job no_transcript 1 ready_world)))
                !! "uploads/video_20240102_115500.mp4").
Proof.
  assert (is_Some (disk (outside ready_world) !! "uploads/video_20240102_115500.mp4"))
    as Hq by (vm_compute; eauto).
  split; [reflexivity|]. split; [exact no_transcript_keeps_files|].
  split; [exact Hq|].
  apply (run_deletes_only_extracted_audio no_transcript 1 ready_world
           (fst (process_dubbing_job no_transcript 1 ready_world))
           (snd (process_dubbing_job no_transcript 1 ready_world))
           "uploads/video_20240102_115500.mp4"
           eq_refl no_transcript_keeps_files (surjective_pairing _) Hq).
  intros a Hin. vm_compute in Hin. members Hin; simplify_eq. discriminate.
Defined.

(** * The stage methods of the service *)

Lemma no_raise_absorbing {S A} (body : SE S (option A)) :
  no_raise (try_except body (fun _ => ret None)).
Proof. apply no_raise_try_except. intros e s. unfold ret. eauto. Qed.

(** X8: no stage method of the service, and not [_get_video_duration],
    lets an exception of its tools out: whatever ffmpeg, ffprobe, the
    temporary file and the OpenAI client do, each returns a value. *)
Theorem service_stages_never_raise env :
  (forall v, no_raise (_extract_audio env v))
  /\ (forall a, no_raise (_transcribe_audio env a))
  /\ (forall t c, no_raise (_translate_text env t c))
  /\ (forall t c, no_raise (_generate_ai_speech env t c))
  /\ (forall v a c, no_raise (_replace_video_audio env v a c))
  /\ (forall p, no_raise (_get_video_duration env p)).
Proof.
  repeat split; intros; apply no_raise_absorbing.
Qed.

Ltac run_outside H :=
  unfold try_except, bind, named_temporary_file, path_exists, open_rb, now, ret in H;
  cbn [disk clock] in H;
  repeat (case_match; simplify_eq; cbn [disk clock] in * );
  repeat match goal with
  | Hb : bool_decide _ = true |- _ => apply bool_decide_eq_true in Hb
  end.

Lemma _extract_audio_Some env v o p o' :
  _extract_audio env v o = (Ok (Some p), o') ->
  p = tempfile_name env ".wav" o /\ is_Some (disk o' !! p).
Proof.
  intros H. unfold _extract_audio in H. run_outside H. done.
Qed.

Lemma _generate_ai_speech_Some env t c o p o' :
  _generate_ai_speech env t c o = (Ok (Some p), o') ->
  p = tempfile_name env ".mp3" o /\ is_Some (disk o' !! p).
Proof.
  intros H. unfold _generate_ai_speech in H. run_outside H. done.
Qed.

Lemma _replace_video_audio_Some env v a c o q o' :
  _replace_video_audio env v a c o = (Ok (Some q), o') ->
  is_Some (disk o' !! q).
Proof.
  intros H. unfold _replace_video_audio in H. run_outside H. done.
Qed.

(** X9: what the file-producing stage methods hand over is on disk when
    they return: extraction and speech synthesis return the temporary file
    they created (suffix [.wav], [.mp3]), the mux step returns a path below
    [outputs] whose last component is the generated name; transcribing a
    file that is not there gives [None] and touches nothing. *)
Theorem stage_results_exist_on_disk env :
  (forall v o p o',
     _extract_audio env v o = (Ok (Some p), o') ->
     p = tempfile_name env ".wav" o /\ is_Some (disk o' !! p))
  /\ (forall t c o p o',
        _generate_ai_speech env t c o = (Ok (Some p), o') ->
        p = tempfile_name env ".mp3" o /\ is_Some (disk o' !! p))
  /\ (forall v a c o q o',
        _replace_video_audio env v a c o = (Ok (Some q), o') ->
        is_Some (disk o' !! q)
        /\ q = output_dir +:+ "/" +:+ path_name q
        /\ path_name q
           = path_stem v +:+ "_dubbed_" +:+ LanguageCode_value c +:+ "_"
             +:+ strftime (clock o) +:+ ".mp4")
  /\ (forall a o,
        disk o !! a = None -> _transcribe_audio env a o = (Ok None, o)).
Proof.
  split; [intros v o p o' H; exact (_extract_audio_Some _ _ _ _ _ H)|].
  split; [intros t c o p o' H; exact (_generate_ai_speech_Some _ _ _ _ _ _ H)|].
  split.
  - intros v a c o q o' H. split; [eapply _replace_video_audio_Some, H|].
    apply _replace_video_audio_path in H. subst q.
    rewrite path_name_output. split; [|reflexivity].
    destruct (path_stem v) as [|x s] eqn:Hs; [reflexivity|].
    apply path_join_relative.
    pose proof (path_stem_no_slash v) as Hn. rewrite Hs in Hn.
    cbn [has_char] in Hn. now apply orb_false_iff in Hn as [? _].
  - intros a o Hmiss. unfold _transcribe_audio, try_except, bind, open_rb, ret.
    now rewrite Hmiss.
Qed.

(** The mux step of the working installation. *)
Lemma stage_results_witness :
  fst (_replace_video_audio studio "uploads/video_20240102_120000.mp4"
         "/tmp/tmpa1b2c3d4.mp3" SPANISH (mk_outside ∅ noon))
  = Ok (Some "outputs/video_20240102_120000_dubbed_es_20240102_120000.mp4")
  /\ is_Some
       (disk (snd (_replace_video_audio studio "uploads/video_20240102_120000.mp4"
                     "/tmp/tmpa1b2c3d4.mp3" SPANISH (mk_outside ∅ noon)))
          !! "outputs/video_20240102_120000_dubbed_es_20240102_120000.mp4").
Proof.
  assert (fst (_replace_video_audio studio "uploads/video_20240102_120000.mp4"
                 "/tmp/tmpa1b2c3d4.mp3" SPANISH (mk_outside ∅ noon))
          = Ok (Some "outputs/video_20240102_120000_dubbed_es_20240102_120000.mp4"))
    as Hfst by (vm_compute; reflexivity).
  split; [exact Hfst|].
  destruct (stage_results_exist_on_disk studio) as (_ & _ & Hmux & _).
  eapply Hmux. rewrite <- Hfst. apply surjective_pairing.
Defined.

Lemma _extract_audio_None env v o o' :
  tools_keep_files env ->
  _extract_audio env v o = (Ok None, o') ->
  is_Some (disk o' !! tempfile_name env ".wav" o).
Proof.
  intros [Hrun _] H. unfold _extract_audio in H.
  unfold try_except, bind, named_temporary_file, path_exists, ret in H.
  cbn [disk clock] in H.
  destruct (subprocess_run env _ _ _) as [res o1] eqn:Htool.
  assert (is_Some (disk o1 !! tempfile_name env ".wav" o)) as Hkept.
  { eapply Hrun; [exact Htool|]. cbn [disk]. rewrite lookup_insert_eq. eauto. }
  destruct res as [cp|e]; [|now simplify_eq].
  destruct (returncode cp =? 0); [|now simplify_eq].
  cbn [disk] in H. rewrite bool_decide_true in H by done. discriminate H.
Qed.

Lemma _replace_video_audio_keeps env v a c :
  tools_keep_files env -> keeps_files (_replace_video_audio env v a c).
Proof.
  intros [Hrun _] o r o' q H Hq. unfold _replace_video_audio in H.
  unfold try_except, bind, now, path_exists, ret in H.
  destruct (subprocess_run env _ _ _) as [res o1] eqn:Htool.
  assert (is_Some (disk o1 !! q)) as Hkept by (eapply Hrun; eauto).
  destruct res as [cp|e]; [|now simplify_eq].
  destruct (returncode cp =? 0); [|now simplify_eq].
  case_bool_decide; now simplify_eq.
Qed.

Lemma studio_keeps_files : tools_keep_files studio.
Proof.
  split.
  - intros args t o r o' q H Hq. cbn [studio subprocess_run] in H.
    repeat case_match; simplify_eq; try done.
    all: cbn [disk]; apply lookup_insert_is_Some';  now right.
  - intros text p o r o' q H Hq. cbn [studio speech_create] in H.
    simplify_eq. cbn [disk]. apply lookup_insert_is_Some'. now right.
Defined.

Lemma broken_ffmpeg_keeps_files : tools_keep_files broken_ffmpeg.
Proof.
  split.
  - intros args t o r o' q H Hq. cbn [broken_ffmpeg subprocess_run] in H.
    now simplify_eq.
  - apply studio_keeps_files.
Defined.

(** X10: with tools that remove no file, whenever extraction comes back with
    [None] the temporary [.wav] that [_extract_audio] created for the run is
    still on disk when the run is over: this path has no cleanup. *)
Theorem failed_extraction_leaks_temp_file env job_id w r w' :
  faults w = [] ->
  tools_keep_files env ->
  process_dubbing_job (service env) job_id w = (r, w') ->
  EvStage ExtractAudio (Ok None) ∈ events_since w w' ->
  is_Some (disk (outside w') !! tempfile_name env ".wav" (outside w)).
Proof.
  intros Hf Hk Hrun. wp_start Hrun.
  unfold process_dubbing_job, _process_dubbing_sync.
  destruct (jobs w !! job_id) as [j|] eqn:Hj.
  all: wp_run.
  all: events; simpl app.
  all: intros Hin; members Hin; simplify_eq.
  world_simpl. cbn [service extract_audio] in *.
  eapply _extract_audio_None; eassumption.
Qed.

(** The run with the ffmpeg that exits with status 1. *)
Lemma failed_extraction_witness :
  faults submitted_world = []
  /\ tools_keep_files broken_ffmpeg
  /\ EvStage ExtractAudio (Ok None)
       ∈ events_since submitted_world
           (snd (process_dubbing_job (service broken_ffmpeg) 1 submitted_world))
  /\ is_Some (disk (outside (snd (process_dubbing_job (service broken_ffmpeg) 1
                                    submitted_world)))
                !! tempfile_name broken_ffmpeg ".wav" (outside submitted_world)).
Proof.
  assert (faults submitted_world = []) as Hf by (vm_compute; reflexivity).
  assert (EvStage ExtractAudio (Ok None)
            ∈ events_since submitted_world
                (snd (process_dubbing_job (service broken_ffmpeg) 1 submitted_world)))
    as Hin by (vm_compute; here).
  split; [exact Hf|]. split; [exact broken_ffmpeg_keeps_files|]. split; [exact Hin|].
  apply (failed_extraction_leaks_temp_file broken_ffmpeg 1 submitted_world
           (fst (process_dubbing_job (service broken_ffmpeg) 1 submitted_world))
           (snd (process_dubbing_job (service broken_ffmpeg) 1 submitted_world))
           Hf broken_ffmpeg_keeps_files (surjective_pairing _) Hin).
Defined.

(** X11: the synthesized speech file is never cleaned up: with tools that
    remove no file, the temporary file that speech synthesis returned is
    still on disk after the run, also after a successful mux (unless it is
    the very file extraction returned). *)
Theorem speech_file_is_left_behind env job_id w r w' sp :
  faults w = [] ->
  tools_keep_files env ->
  process_dubbing_job (service env) job_id w = (r, w') ->
  EvStage SynthesizeSpeech (Ok (Some sp)) ∈ events_since w w' ->
  (forall a, EvStage ExtractAudio (Ok (Some a)) ∈ events_since w w' -> a <> sp) ->
  is_Some (disk (outside w') !! sp).
Proof.
  intros Hf Hk Hrun. wp_start Hrun.
  unfold process_dubbing_job, _process_dubbing_sync.
  destruct (jobs w !! job_id) as [j|] eqn:Hj.
  all: wp_run.
  all: events; simpl app.
  all: intros Hin Hne; members Hin; simplify_eq.
  all: world_simpl; rewrite lookup_delete_ne by (apply Hne; here).
  all: cbn [service generate_ai_speech replace_video_audio] in *.
  all: repeat match goal with
       | Hkeep : tools_keep_files ?e,
         H : _replace_video_audio ?e ?v ?a ?c ?o = (?r, ?o')
         |- is_Some (disk ?o' !! ?q) =>
           apply (_replace_video_audio_keeps e v a c Hkeep o r o' q H)
       end.
  all: match goal with
       | H : _generate_ai_speech _ _ _ _ = _ |- _ =>
           apply _generate_ai_speech_Some in H; apply H
       end.
Qed.

(** Scenario A: the [.mp3] is still there when the job is Completed. *)
Lemma speech_file_witness :
  faults submitted_world = []
  /\ tools_keep_files studio
  /\ fst (process_dubbing_job (service studio) 1 submitted_world) = Ok true
  /\ is_Some (disk (outside (snd (process_dubbing_job (service studio) 1
                                    submitted_world)))
                !! "/tmp/tmpa1b2c3d4.mp3").
Proof.
  assert (faults submitted_world = []) as Hf by (vm_compute; reflexivity).
  assert (events_since submitted_world
            (snd (process_dubbing_job (service studio) 1 submitted_world))
          = [EvStatus 1 PROCESSING;
             EvStage ExtractAudio (Ok (Some "/tmp/tmpa1b2c3d4.wav"));
             EvStage Transcribe (Ok (Some "hello"));
             EvStage Translate (Ok (Some "hola"));
             EvStage SynthesizeSpeech (Ok (Some "/tmp/tmpa1b2c3d4.mp3"));
             EvStage MuxOutput
               (Ok (Some "outputs/video_20240102_120000_dubbed_es_20240102_120500.mp4"));
             EvStatus 1 COMPLETED]) as Hev by (vm_compute; reflexivity).
  split; [exact Hf|]. split; [exact studio_keeps_files|].
  split; [vm_compute; reflexivity|].
  apply (speech_file_is_left_behind studio 1 submitted_world
           (fst (process_dubbing_job (service studio) 1 submitted_world))
           (snd (process_dubbing_job (service studio) 1 submitted_world))
           "/tmp/tmpa1b2c3d4.mp3" Hf studio_keeps_files (surjective_pairing _)).
  - rewrite Hev. here.
  - rewrite Hev. intros a Hin. members Hin; try discriminate Hin.
    injection Hin as ->. discriminate.
Defined.

(** X12: a job the service has completed can be downloaded: after a run
    that returned [True] on a working store, [get_output_file_path] returns
    the path the mux step produced (the extracted audio, the one file the
    run deletes, being another file). *)
Theorem completed_run_output_is_downloadable env job_id w r w' :
  faults w = [] ->
  process_dubbing_job (service env) job_id w = (r, w') ->
  r = Ok true ->
  (forall a q, EvStage ExtractAudio (Ok (Some a)) ∈ events_since w w' ->
               EvStage MuxOutput (Ok (Some q)) ∈ events_since w w' -> a <> q) ->
  exists q,
    EvStage MuxOutput (Ok (Some q)) ∈ events_since w w'
    /\ get_output_file_path job_id w' = (Ok (Some q), w').
Proof.
  intros Hf Hrun. wp_start Hrun.
  unfold process_dubbing_job, _process_dubbing_sync.
  destruct (jobs w !! job_id) as [j|] eqn:Hj.
  all: wp_run.
  all: events; simpl app.
  all: intros Hr Hne; try discriminate Hr.
  eexists. split; [here|].
  rewrite get_output_file_path_healthy by (world_simpl; exact Hf).
  world_simpl. rewrite lookup_insert_eq.
  cbn [mark_completed DubbingJob.status DubbingJob.output_file_path truthy].
  rewrite bool_decide_true; [reflexivity|].
  rewrite lookup_delete_ne by (apply Hne; here).
  cbn [service replace_video_audio] in *.
  match goal with
  | H : _replace_video_audio _ _ _ _ _ = _ |- _ =>
      apply _replace_video_audio_Some in H; exact H
  end.
Qed.

(** Scenario A: the output of the Completed job can be fetched. *)
Lemma downloadable_witness :
  faults submitted_world = []
  /\ fst (process_dubbing_job (service studio) 1 submitted_world) = Ok true
  /\ exists q,
       get_output_file_path 1
         (snd (process_dubbing_job (service studio) 1 submitted_world))
       = (Ok (Some q), snd (process_dubbing_job (service studio) 1 submitted_world)).
Proof.
  assert (faults submitted_world = []) as Hf by (vm_compute; reflexivity).
  assert (fst (process_dubbing_job (service studio) 1 submitted_world) = Ok true)
    as Hok by (vm_compute; reflexivity).
  assert (events_since submitted_world
            (snd (process_dubbing_job (service studio) 1 submitted_world))
          = [EvStatus 1 PROCESSING;
             EvStage ExtractAudio (Ok (Some "/tmp/tmpa1b2c3d4.wav"));
             EvStage Transcribe (Ok (Some "hello"));
             EvStage Translate (Ok (Some "hola"));
             EvStage SynthesizeSpeech (Ok (Some "/tmp/tmpa1b2c3d4.mp3"));
             EvStage MuxOutput
               (Ok (Some "outputs/video_20240102_120000_dubbed_es_20240102_120500.mp4"));
             EvStatus 1 COMPLETED]) as Hev by (vm_compute; reflexivity).
  split; [exact Hf|]. split; [exact Hok|].
  destruct (completed_run_output_is_downloadable studio 1 submitted_world
              (fst (process_dubbing_job (service studio) 1 submitted_world))
              (snd (process_dubbing_job (service studio) 1 submitted_world))
              Hf (surjective_pairing _) Hok) as (q & _ & Hget).
  - rewrite Hev. intros a q Ha Hq.
    members Ha; try discriminate Ha. injection Ha as ->.
    members Hq; try discriminate Hq. injection Hq as ->. discriminate.
  - exists q. exact Hget.
Defined.

(** * Uploads *)

Lemma _get_video_duration_keeps env p :
  tools_keep_files env -> keeps_files (_get_video_duration env p).
Proof.
  intros [Hrun _] o r o' q H Hq. unfold _get_video_duration in H.
  unfold try_except, bind, ret, raise in H.
  destruct (subprocess_run env _ _ _) as [res o1] eqn:Htool.
  assert (is_Some (disk o1 !! q)) as Hkept by (eapply Hrun; eauto).
  repeat (case_match; simplify_eq); done.
Qed.


Lemma save_video_returns env content name mime src w v w1 :
  save_video env content name mime src w = (Ok v, w1) ->
  v = Video.mk (next_id (videos w))
        ("video_" +:+ strftime (clock (outside w)) +:+ path_suffix name) name
        ("uploads/" +:+ "video_" +:+ strftime (clock (outside w)) +:+ path_suffix name)
        (Z.of_nat (String.length content)) (Video.duration v) mime src
        (Video.uploaded_at v)
  /\ videos w1 = <[next_id (videos w) := v]> (videos w)
  /\ jobs w1 = jobs w /\ languages w1 = languages w
  /\ (String.length mime <= 100)%nat
  /\ (tools_keep_files env ->
      is_Some (disk (outside w1)
                 !! ("uploads/" +:+ "video_" +:+ strftime (clock (outside w))
                     +:+ path_suffix name))).
Proof.
  unfold save_video.
  change (path_join upload_dir ("video_" +:+ strftime (clock (outside w))
                                +:+ path_suffix name))
    with ("uploads/" +:+ "video_" +:+ strftime (clock (outside w)) +:+ path_suffix name).
  unfold VideoUpload_validate, session_add_video, utcnow.
  unfold bind at 1 2. unfold lift_outside at 1 2, now at 1, write_file.
  cbn [outside set_outside disk clock fst snd].
  unfold bind at 1. unfold lift_outside at 1. cbn [outside set_outside].
  destruct (_get_video_duration env _ _) as [rd o1] eqn:Hdur.
  destruct rd as [d|e]; [|intros H; discriminate H].
  unfold bind, lift_outside, now, store_op, ret, raise.
  cbn [outside set_outside disk clock fst snd faults videos jobs languages].
  intros Hrun.
  repeat (case_match; simplify_eq;
          cbn [outside set_outside set_videos set_faults disk clock fst snd faults
               videos jobs languages] in * ).
  all: split; [reflexivity|]; split; [reflexivity|]; split; [reflexivity|];
       split; [reflexivity|].
  all: split;
    [ match goal with
      | Hv : _ && _ && (_ <=? 100)%nat = true |- _ =>
          apply andb_true_iff in Hv as [_ Hv]; now apply Nat.leb_le in Hv
      end |].
  all: intros Hk; eapply _get_video_duration_keeps; [exact Hk | exact Hdur |].
  all: cbn [disk]; rewrite lookup_insert_eq; eauto.
Qed.

(** X13: when [save_video] returns, the video row it returns is stored under
    a key that was free, keeps the uploaded name, size, mime type and
    language, and names the file [uploads/video_<timestamp><extension>];
    jobs and languages are untouched, and the file is on disk if ffprobe
    removes nothing. *)
Theorem save_video_stores_upload env content name mime src w v w1 :
  save_video env content name mime src w = (Ok v, w1) ->
  Video.original_filename v = name
  /\ Video.file_size v = Z.of_nat (String.length content)
  /\ Video.mime_type v = mime
  /\ Video.source_language_id v = src
  /\ Video.filename v
     = "video_" +:+ strftime (clock (outside w)) +:+ path_suffix name
  /\ Video.file_path v = "uploads/" +:+ Video.filename v
  /\ videos w !! Video.id v = None
  /\ videos w1 = <[Video.id v := v]> (videos w)
  /\ jobs w1 = jobs w /\ languages w1 = languages w
  /\ (tools_keep_files env -> is_Some (disk (outside w1) !! Video.file_path v)).
Proof.
  intros H. apply save_video_returns in H as (Hv & Hvs & Hj & Hl & _ & Hd).
  rewrite Hv. cbn [Video.original_filename Video.file_size Video.mime_type
                   Video.source_language_id Video.filename Video.file_path Video.id].
  repeat (split; [reflexivity|]). split; [apply next_id_fresh|].
  rewrite <- Hv. auto.
Qed.

(** The upload of scenario A. *)
Lemma save_video_witness :
  exists v,
    fst (save_video studio "fake_mp4_content" "clip.mp4" "video/mp4" 1 language_world)
    = Ok v
    /\ Video.file_path v = "uploads/" +:+ Video.filename v.
Proof.
  assert (exists v,
            fst (save_video studio "fake_mp4_content" "clip.mp4" "video/mp4" 1
                   language_world) = Ok v) as [v Hv]
    by (vm_compute; eauto).
  exists v. split; [exact Hv|].
  eapply (save_video_stores_upload studio "fake_mp4_content" "clip.mp4" "video/mp4" 1
            language_world v).
  rewrite <- Hv. apply surjective_pairing.
Defined.



(** X15: the generated name is unique per second only: two uploads with the
    same extension while the clock shows the same second get the same file
    path, under two different video rows, so the second upload replaces the
    file of the first. *)
Theorem uploads_in_one_second_share_a_path
    env c1 n1 m1 s1 c2 n2 m2 s2 w v1 w1 v2 w2 :
  save_video env c1 n1 m1 s1 w = (Ok v1, w1) ->
  save_video env c2 n2 m2 s2 w1 = (Ok v2, w2) ->
  clock (outside w1) = clock (outside w) ->
  path_suffix n1 = path_suffix n2 ->
  Video.file_path v1 = Video.file_path v2
  /\ Video.id v1 <> Video.id v2
  /\ videos w2 !! Video.id v1 = Some v1
  /\ videos w2 !! Video.id v2 = Some v2.
Proof.
  intros H1 H2 Hclock Hsuf.
  apply save_video_returns in H1 as (Hv1 & Hvs1 & _).
  apply save_video_returns in H2 as (Hv2 & Hvs2 & _).
  assert (Video.id v1 = next_id (videos w)) as Hi1 by (rewrite Hv1; reflexivity).
  assert (Video.id v2 = next_id (videos w1)) as Hi2 by (rewrite Hv2; reflexivity).
  assert (Video.id v1 <> Video.id v2) as Hne.
  { intros E. pose proof (next_id_fresh (videos w1)) as Hfresh.
    rewrite <- Hi2, <- E, Hvs1, Hi1, lookup_insert_eq in Hfresh. discriminate. }
  split.
  - rewrite Hv1, Hv2. cbn [Video.file_path]. now rewrite Hclock, Hsuf.
  - split; [exact Hne|]. rewrite Hvs2, <- Hi2, Hvs1, <- Hi1. split.
    + rewrite lookup_insert_ne by congruence. apply lookup_insert_eq.
    + apply lookup_insert_eq.
Qed.

(** Two uploads at noon. *)
Lemma uploads_share_witness :
  exists v1 w1 v2 w2,
    save_video studio "first" "a.mp4" "video/mp4" 1 language_world = (Ok v1, w1)
    /\ save_video studio "second" "b.mp4" "video/mp4" 1 w1 = (Ok v2, w2)
    /\ Video.file_path v1 = Video.file_path v2.
Proof.
  destruct (save_video studio "first" "a.mp4" "video/mp4" 1 language_world)
    as [[v1|e1] w1] eqn:H1; [|vm_compute in H1; discriminate H1].
  destruct (save_video studio "second" "b.mp4" "video/mp4" 1 w1)
    as [[v2|e2] w2] eqn:H2.
  - exists v1, w1, v2, w2. split; [reflexivity|]. split; [exact H2|].
    eapply (uploads_in_one_second_share_a_path studio _ _ _ _ _ _ _ _ _ _ _ _ _ H1 H2).
    + vm_compute in H1. injection H1 as _ <-. reflexivity.
    + reflexivity.
  - exfalso. vm_compute in H1. injection H1 as _ <-. vm_compute in H2. discriminate H2.
Defined.

(** * Jobs: creating, reading, listing *)

Lemma bind_Ok {S A B} (m : SE S A) (k : A -> SE S B) s a s1 :
  m s = (Ok a, s1) -> bind m k s = k a s1.
Proof. intros H. unfold bind. now rewrite H. Qed.

Lemma get_dubbing_job_healthy job_id w :
  faults w = [] -> get_dubbing_job job_id w = (Ok (jobs w !! job_id), w).
Proof.
  intros Hf. unfold get_dubbing_job, bind.
  rewrite session_get_job_healthy by done.
  destruct (jobs w !! job_id) as [j|]; [|reflexivity].
  rewrite load_source_video_healthy by done.
  now rewrite load_target_language_healthy by done.
Qed.

Lemma for_each_loads_healthy (l : list DubbingJob.t) w :
  faults w = [] ->
  for_each l (fun job => load_source_video job ;;; load_target_language job ;;; ret tt) w
  = (Ok tt, w).
Proof.
  intros Hf. induction l as [|j l IH]; [reflexivity|].
  cbn [for_each].
  rewrite (bind_Ok _ _ w tt w); [exact IH|].
  rewrite (bind_Ok _ _ w _ w (load_source_video_healthy j w Hf)).
  now rewrite (bind_Ok _ _ w _ w (load_target_language_healthy j w Hf)).
Qed.

Lemma get_dubbing_jobs_healthy video_id w :
  faults w = [] ->
  get_dubbing_jobs video_id w =
    (Ok (List.filter
           (match video_id with
            | Some v => fun job => DubbingJob.source_video_id job =? v
            | None => fun _ => true
            end) (map snd (map_to_list (jobs w)))), w).
Proof.
  intros Hf. unfold get_dubbing_jobs.
  erewrite bind_Ok;
    [|unfold session_select_jobs; erewrite bind_Ok;
      [reflexivity | now apply store_op_healthy]].
  erewrite bind_Ok; [reflexivity | now apply for_each_loads_healthy].
Qed.

Lemma create_dubbing_job_returns v l w j w1 :
  faults w = [] ->
  create_dubbing_job v l w = (Ok j, w1) ->
  j = DubbingJob.mk (next_id (jobs w)) v l PENDING None None None None None None
        (clock (outside w)) (clock (outside w))
  /\ w1 = add_event (EvStatus (next_id (jobs w)) PENDING)
            (set_jobs (<[next_id (jobs w) := j]> (jobs w)) w).
Proof.
  intros Hf Hrun. rewrite create_dubbing_job_healthy in Hrun by done.
  destruct (videos w !! v); [|discriminate Hrun].
  destruct (head _); [|discriminate Hrun].
  injection Hrun as <- <-. split; reflexivity.
Qed.

Lemma In_rows (m : gmap Z DubbingJob.t) j :
  In j (map snd (map_to_list m)) <-> exists i, m !! i = Some j.
Proof.
  rewrite in_map_iff. split.
  - intros ([i j'] & <- & Hin). exists i.
    apply elem_of_map_to_list. now apply list_elem_of_In.
  - intros [i Hi]. exists (i, j). split; [reflexivity|].
    apply list_elem_of_In. now apply elem_of_map_to_list.
Qed.

(** X16: on a working store [get_dubbing_jobs] changes nothing and lists
    exactly the stored jobs of the given video, or all stored jobs when no
    video is given (then as many as there are rows); a video without jobs
    gives the empty list. *)
Theorem listing_returns_matching_jobs video_id w :
  faults w = [] ->
  exists l,
    get_dubbing_jobs video_id w = (Ok l, w)
    /\ (forall j, In j l <->
          exists i, jobs w !! i = Some j
                    /\ (forall v, video_id = Some v -> DubbingJob.source_video_id j = v))
    /\ (video_id = None -> length l = size (jobs w))
    /\ (forall v, video_id = Some v ->
          (forall i j, jobs w !! i = Some j -> DubbingJob.source_video_id j <> v) ->
          l = []).
Proof.
  intros Hf. eexists. split; [apply get_dubbing_jobs_healthy, Hf|].
  assert (forall j,
            In j (List.filter
                    (match video_id with
                     | Some v => fun job => DubbingJob.source_video_id job =? v
                     | None => fun _ => true
                     end) (map snd (map_to_list (jobs w)))) <->
            exists i, jobs w !! i = Some j
                      /\ (forall v, video_id = Some v ->
                                    DubbingJob.source_video_id j = v)) as Hiff.
  { intros j. rewrite filter_In, In_rows. destruct video_id as [v|].
    - rewrite Z.eqb_eq. split.
      + intros [[i Hi] Hv]. exists i. split; [done|]. intros ? [= <-]. done.
      + intros (i & Hi & Hv). split; eauto.
    - split.
      + intros [[i Hi] _]. exists i. split; [done|]. intros ? [=].
      + intros (i & Hi & _). split; eauto. }
  split; [exact Hiff|]. split.
  - intros ->. rewrite filter_all by done.
    rewrite length_map. apply length_map_to_list.
  - intros v -> Hnone.
    destruct (List.filter _ _) as [|j l] eqn:E; [reflexivity|]. exfalso.
    destruct (proj1 (Hiff j)) as (i & Hi & Hv); [now left|].
    eapply Hnone; eauto.
Qed.

(** Two jobs in the store, one of video 1. *)
Lemma listing_witness :
  faults ready_world = []
  /\ exists l, get_dubbing_jobs (Some 1) ready_world = (Ok l, ready_world)
               /\ In pending_job l.
Proof.
  split; [reflexivity|].
  destruct (listing_returns_matching_jobs (Some 1) ready_world eq_refl)
    as (l & Hrun & Hiff & _).
  exists l. split; [exact Hrun|].
  apply Hiff. exists 1. split; [reflexivity|]. intros v Hv.
  injection Hv as <-. reflexivity.
Defined.

(** X17: what [create_dubbing_job] returns can be read back: on a working
    store [get_dubbing_job] with the new id returns the very row, the
    listing of its video contains it, and every other id reads as before. *)
Theorem created_job_is_retrievable v l w j w1 :
  faults w = [] ->
  create_dubbing_job v l w = (Ok j, w1) ->
  get_dubbing_job (DubbingJob.id j) w1 = (Ok (Some j), w1)
  /\ (exists rows, get_dubbing_jobs (Some v) w1 = (Ok rows, w1) /\ In j rows)
  /\ (forall i, i <> DubbingJob.id j ->
        fst (get_dubbing_job i w1) = fst (get_dubbing_job i w)).
Proof.
  intros Hf Hrun.
  destruct (create_dubbing_job_returns v l w j w1 Hf Hrun) as [-> ->].
  cbn [DubbingJob.id].
  assert (faults (add_event (EvStatus (next_id (jobs w)) PENDING)
                    (set_jobs (<[next_id (jobs w) :=
                        DubbingJob.mk (next_id (jobs w)) v l PENDING None None None
                          None None None (clock (outside w)) (clock (outside w))]>
                        (jobs w)) w)) = []) as Hf1 by exact Hf.
  split; [|split].
  - rewrite get_dubbing_job_healthy by exact Hf1. cbn [jobs add_event set_jobs].
    now rewrite lookup_insert_eq.
  - eexists. split; [apply get_dubbing_jobs_healthy, Hf1|].
    apply filter_In. split.
    + apply In_rows. eexists. cbn [jobs add_event set_jobs]. apply lookup_insert_eq.
    + cbn [DubbingJob.source_video_id]. apply Z.eqb_refl.
  - intros i Hi. rewrite !get_dubbing_job_healthy by assumption.
    cbn [jobs add_event set_jobs fst]. now rewrite lookup_insert_ne by congruence.
Qed.

(** A job for the stored video. *)
Lemma created_job_witness :
  faults ready_world = []
  /\ exists j w1, create_dubbing_job 1 3 ready_world = (Ok j, w1)
                  /\ get_dubbing_job (DubbingJob.id j) w1 = (Ok (Some j), w1).
Proof.
  split; [reflexivity|].
  destruct (create_dubbing_job 1 3 ready_world) as [[j|e] w1] eqn:Hrun;
    [|vm_compute in Hrun; discriminate Hrun].
  exists j, w1. split; [reflexivity|].
  apply (created_job_is_retrievable 1 3 ready_world j w1 eq_refl Hrun).
Defined.

(** X18: two jobs created for one video, one after the other on a working
    store, get different ids, and the listing of that video contains both,
    each with its own target language. *)
Theorem two_jobs_for_one_video v l1 l2 w j1 w1 j2 w2 :
  faults w = [] ->
  create_dubbing_job v l1 w = (Ok j1, w1) ->
  create_dubbing_job v l2 w1 = (Ok j2, w2) ->
  DubbingJob.id j1 <> DubbingJob.id j2
  /\ DubbingJob.target_language_id j1 = l1
  /\ DubbingJob.target_language_id j2 = l2
  /\ exists rows, get_dubbing_jobs (Some v) w2 = (Ok rows, w2)
                  /\ In j1 rows /\ In j2 rows.
Proof.
  intros Hf H1 H2.
  destruct (create_dubbing_job_returns v l1 w j1 w1 Hf H1) as [-> ->].
  apply create_dubbing_job_returns in H2 as [-> ->]; [|exact Hf].
  cbn [DubbingJob.id DubbingJob.target_language_id jobs add_event set_jobs outside].
  assert (next_id (jobs w)
          <> next_id (<[next_id (jobs w) :=
                 DubbingJob.mk (next_id (jobs w)) v l1 PENDING None None None None None
                   None (clock (outside w)) (clock (outside w))]> (jobs w))) as Hne.
  { intros E. pose proof (next_id_fresh (<[next_id (jobs w) :=
                 DubbingJob.mk (next_id (jobs w)) v l1 PENDING None None None None None
                   None (clock (outside w)) (clock (outside w))]> (jobs w))) as Hfr.
    rewrite <- E, lookup_insert_eq in Hfr. discriminate. }
  split; [exact Hne|]. split; [reflexivity|]. split; [reflexivity|].
  eexists. split; [apply get_dubbing_jobs_healthy; exact Hf|].
  cbn [jobs add_event set_jobs]. split.
  - apply filter_In. split; [|apply Z.eqb_refl].
    apply In_rows. eexists. rewrite lookup_insert_ne by (intros E; apply Hne; symmetry; exact E).
    apply lookup_insert_eq.
  - apply filter_In. split; [|apply Z.eqb_refl].
    apply In_rows. eexists. apply lookup_insert_eq.
Qed.

(** Spanish and French for the stored video. *)
Lemma two_jobs_witness :
  faults ready_world = []
  /\ exists j1 w1 j2 w2,
       create_dubbing_job 1 2 ready_world = (Ok j1, w1)
       /\ create_dubbing_job 1 3 w1 = (Ok j2, w2)
       /\ DubbingJob.id j1 <> DubbingJob.id j2.
Proof.
  split; [reflexivity|].
  destruct (create_dubbing_job 1 2 ready_world) as [[j1|e1] w1] eqn:H1;
    [|vm_compute in H1; discriminate H1].
  destruct (create_dubbing_job 1 3 w1) as [[j2|e2] w2] eqn:H2.
  - exists j1, w1, j2, w2. split; [reflexivity|]. split; [exact H2|].
    apply (two_jobs_for_one_video 1 2 3 ready_world j1 w1 j2 w2 eq_refl H1 H2).
  - exfalso. vm_compute in H1. injection H1 as _ <-. vm_compute in H2. discriminate H2.
Defined.

(** * The terminal writes under store faults *)

Lemma wp_returns {S A} (m : SE S A) (a : A) (P : S -> Prop) s :
  wp m (fun r s' => r = Ok a /\ P s') s -> exists s', m s = (Ok a, s') /\ P s'.
Proof.
  unfold wp. destruct (m s) as [r s']. cbn [fst snd]. intros [-> H]. eauto.
Qed.

Lemma only_job_changed_faults job_id w W :
  videos W = videos w -> languages W = languages w -> outside W = outside w ->
  jobs W = jobs w -> only_job_changed job_id w W.
Proof.
  intros Hv Hl Ho Hj. unfold only_job_changed. rewrite Hj.
  repeat split; try done. intros j' H. exists j'. done.
Qed.

Lemma only_job_changed_insert job_id w W j j' :
  videos W = videos w -> languages W = languages w -> outside W = outside w ->
  jobs W = <[job_id := j']> (jobs w) ->
  jobs w !! job_id = Some j ->
  DubbingJob.source_video_id j' = DubbingJob.source_video_id j ->
  DubbingJob.target_language_id j' = DubbingJob.target_language_id j ->
  DubbingJob.processing_started_at j' = DubbingJob.processing_started_at j ->
  DubbingJob.created_at j' = DubbingJob.created_at j ->
  only_job_changed job_id w W.
Proof.
  intros Hv Hl Ho Hj Hget H1 H2 H3 H4. unfold only_job_changed. rewrite Hj.
  split; [done|]. split; [done|]. split; [done|]. split; [|split].
  - intros i Hi. now rewrite lookup_insert_ne by congruence.
  - congruence.
  - intros j'' H. rewrite lookup_insert_eq in H. injection H as <-. exists j. done.
Qed.

(** X19: the two terminal writes never raise, whatever the store does, and
    touch nothing but the row of their job: videos, languages, files and all
    other jobs stay, a missing job creates no row, and the row keeps its
    video, language, start time and creation time.  A row that did change is
    Completed with the output path, its file name and the size of the file
    (0 when the file is not there), respectively Failed with the message.
    A store fault leaves the row as it was. *)
Theorem terminal_writes_touch_one_row job_id w :
  (forall p, exists w',
      _update_job_success job_id p w = (Ok tt, w')
      /\ only_job_changed job_id w w'
      /\ forall j', jobs w' !! job_id = Some j' ->
           jobs w !! job_id = Some j'
           \/ (DubbingJob.status j' = COMPLETED
               /\ DubbingJob.output_file_path j' = Some p
               /\ DubbingJob.output_filename j' = Some (path_name p)
               /\ DubbingJob.output_file_size j'
                  = Some (default 0 (disk (outside w) !! p))
               /\ DubbingJob.processing_completed_at j' = Some (clock (outside w))))
  /\ (forall msg, exists w',
      _update_job_error job_id msg w = (Ok tt, w')
      /\ only_job_changed job_id w w'
      /\ forall j', jobs w' !! job_id = Some j' ->
           jobs w !! job_id = Some j'
           \/ (DubbingJob.status j' = FAILED
               /\ DubbingJob.error_message j' = Some msg
               /\ DubbingJob.processing_completed_at j' = Some (clock (outside w)))).
Proof.
  split.
  - intros p. apply wp_returns. unfold _update_job_success.
    apply wp_try_except, wp_bind, wp_size_or_zero, wp_bind, wp_session_get_job_any.
    + intros fs. destruct (jobs w !! job_id) as [j|] eqn:Hj.
      * apply wp_bind, wp_utcnow, wp_bind, wp_utcnow, wp_session_commit_job_any.
        -- intros fs'. split; [reflexivity|]. split.
           ++ eapply only_job_changed_insert; try done.
           ++ intros j' H. right. world_simpl. rewrite lookup_insert_eq in H.
              injection H as <-. done.
        -- intros e fs'. apply wp_ret. split; [reflexivity|]. split.
           ++ now apply only_job_changed_faults.
           ++ intros j' H. left. world_simpl. congruence.
      * apply wp_ret. split; [reflexivity|]. split.
        -- now apply only_job_changed_faults.
        -- intros j' H. left. world_simpl. congruence.
    + intros e fs. apply wp_ret. split; [reflexivity|]. split.
      * now apply only_job_changed_faults.
      * intros j' H. now left.
  - intros msg. apply wp_returns. unfold _update_job_error.
    apply wp_try_except, wp_bind, wp_session_get_job_any.
    + intros fs. destruct (jobs w !! job_id) as [j|] eqn:Hj.
      * apply wp_bind, wp_utcnow, wp_bind, wp_utcnow, wp_session_commit_job_any.
        -- intros fs'. split; [reflexivity|]. split.
           ++ eapply only_job_changed_insert; try done.
           ++ intros j' H. right. world_simpl. rewrite lookup_insert_eq in H.
              injection H as <-. done.
        -- intros e fs'. apply wp_ret. split; [reflexivity|]. split.
           ++ now apply only_job_changed_faults.
           ++ intros j' H. left. world_simpl. congruence.
      * apply wp_ret. split; [reflexivity|]. split.
        -- now apply only_job_changed_faults.
        -- intros j' H. left. world_simpl. congruence.
    + intros e fs. apply wp_ret. split; [reflexivity|]. split.
      * now apply only_job_changed_faults.
      * intros j' H. now left.
Qed.

(** * The language table at start-up *)

Lemma head_filter_None {A} (f : A -> bool) l :
  head (List.filter f l) = None -> forall x, In x l -> f x = false.
Proof.
  induction l as [|a l IH]; cbn [List.filter]; [intros _ x []|].
  destruct (f a) eqn:Ha; [discriminate|].
  intros H x [<-|Hx]; auto.
Qed.

Lemma head_filter_Some {A} (f : A -> bool) l x :
  head (List.filter f l) = Some x -> In x l /\ f x = true.
Proof.
  intros H. apply filter_In. destruct (List.filter f l); [discriminate|].
  injection H as ->. now left.
Qed.

Lemma set_languages_twice ls ls' w :
  set_languages ls (set_languages ls' w) = set_languages ls w.
Proof. reflexivity. Qed.

Lemma set_languages_same w : set_languages (languages w) w = w.
Proof. now destruct w. Qed.

Lemma session_first_language_healthy c w :
  faults w = [] ->
  session_first_language c w
  = (Ok (head (List.filter (fun l => bool_decide (Language.code l = c)) (languages w))), w).
Proof.
  intros Hf. unfold session_first_language.
  now rewrite (bind_Ok _ _ w tt w (store_op_healthy w Hf)).
Qed.

(** The loop of [_initialize_languages] over any list of codes and names. *)
Lemma initialize_loop (data : list (LanguageCode * string)) w :
  faults w = [] ->
  exists added,
    for_each data
      (fun '(code, name) =>
         existing <- session_first_language code ;;
         match existing with
         | None => session_add_language code name
         | Some _ => ret tt
         end) w
    = (Ok tt, set_languages (languages w ++ added) w)
    /\ (forall c n, In (c, n) data ->
          exists l, In l (languages w ++ added) /\ Language.code l = c)
    /\ (forall l, In l added ->
          Language.is_active l = true
          /\ In (Language.code l, Language.name l) data
          /\ forall l0, In l0 (languages w) -> Language.code l0 <> Language.code l)
    /\ List.NoDup (map Language.code added)
    /\ ((forall c n, In (c, n) data ->
           exists l, In l (languages w) /\ Language.code l = c) -> added = []).
Proof.
  revert w. induction data as [|[c n] data IH]; intros w Hf.
  - exists []. cbn [for_each]. rewrite app_nil_r, set_languages_same.
    split; [reflexivity|]. split; [intros ? ? []|]. split; [intros ? []|].
    split; [constructor|reflexivity].
  - cbn [for_each].
    destruct (head (List.filter (fun l => bool_decide (Language.code l = c))
                      (languages w))) as [l|] eqn:Hhead.
    + destruct (IH w Hf) as (added & Hrun & Hall & Hnew & Hnd & Hid).
      exists added. split; [|split; [|split; [|split]]].
      * erewrite bind_Ok; [exact Hrun|].
        erewrite bind_Ok; [|now apply session_first_language_healthy].
        now rewrite Hhead.
      * intros c' n' [E|Hin]; [|eauto]. injection E as <- <-.
        apply head_filter_Some in Hhead as [Hl Hc].
        apply bool_decide_eq_true in Hc. exists l. split; [|exact Hc].
        apply in_or_app. now left.
      * intros l' Hl'. destruct (Hnew l' Hl') as (Ha & Hd & Hfresh).
        split; [exact Ha|]. split; [now right|exact Hfresh].
      * exact Hnd.
      * intros Hp. apply Hid. intros c' n' Hin. apply (Hp c' n'). now right.
    + set (new := Language.mk (1 + foldr Z.max 0 (map Language.id (languages w)))
                    c n true).
      destruct (IH (set_languages (languages w ++ [new]) w) Hf)
        as (added & Hrun & Hall & Hnew & Hnd & Hid).
      cbn [languages set_languages] in Hrun, Hall, Hnew, Hid.
      rewrite set_languages_twice, <- app_assoc in Hrun.
      exists (new :: added). split; [|split; [|split; [|split]]].
      * erewrite bind_Ok; [exact Hrun|].
        erewrite bind_Ok; [|now apply session_first_language_healthy].
        now rewrite Hhead.
      * intros c' n' [E|Hin].
        -- injection E as <- <-. exists new. split; [|reflexivity].
           apply in_or_app. right. now left.
        -- destruct (Hall c' n' Hin) as (l & Hl & Hc). exists l.
           split; [|exact Hc]. now rewrite <- app_assoc in Hl.
      * intros l [<-|Hl].
        -- split; [reflexivity|]. split; [now left|].
           intros l0 Hl0 E.
           pose proof (head_filter_None _ _ Hhead l0 Hl0) as Hb.
           cbv beta in Hb. apply bool_decide_eq_false in Hb. now apply Hb.
        -- destruct (Hnew l Hl) as (Ha & Hd & Hfresh).
           split; [exact Ha|]. split; [now right|].
           intros l0 Hl0. apply Hfresh, in_or_app. now left.
      * cbn [map]. constructor; [|exact Hnd].
        intros Hin. apply in_map_iff in Hin as (l & Hc & Hl).
        destruct (Hnew l Hl) as (_ & _ & Hfresh).
        apply (Hfresh new); [|now rewrite Hc].
        apply in_or_app. right. now left.
      * intros Hp. exfalso. destruct (Hp c n) as (l & Hl & Hc); [now left|].
        pose proof (head_filter_None _ _ Hhead l Hl) as Hb.
        cbv beta in Hb. apply bool_decide_eq_false in Hb. now apply Hb.
Qed.

Lemma every_code_listed c : exists n, In (c, n) languages_data.
Proof. destruct c; eexists; cbn; eauto 6. Qed.

(** X20: on a working store [_initialize_languages] completes the language
    table: it keeps the rows that are there, adds one active row, under the
    listed name, for each of the four codes that has no row yet and for no
    other, so that afterwards every code has a row; codes that were unique
    stay unique; videos, jobs and files are not touched; and running it a
    second time changes nothing. *)
Theorem initialize_languages_completes_table w :
  faults w = [] ->
  exists added w',
    _initialize_languages w = (Ok tt, w')
    /\ languages w' = (languages w ++ added)%list
    /\ videos w' = videos w /\ jobs w' = jobs w /\ outside w' = outside w
    /\ (forall c, exists l, In l (languages w') /\ Language.code l = c)
    /\ (forall l, In l added ->
          Language.is_active l = true
          /\ In (Language.code l, Language.name l) languages_data
          /\ forall l0, In l0 (languages w) -> Language.code l0 <> Language.code l)
    /\ (List.NoDup (map Language.code (languages w)) ->
        List.NoDup (map Language.code (languages w')))
    /\ _initialize_languages w' = (Ok tt, w').
Proof.
  intros Hf.
  destruct (initialize_loop languages_data w Hf) as (added & Hrun & Hall & Hnew & Hnd & _).
  exists added, (set_languages (languages w ++ added) w).
  assert (forall c, exists l, In l (languages w ++ added) /\ Language.code l = c) as Hevery.
  { intros c. destruct (every_code_listed c) as [n Hn]. eauto. }
  assert (forall W, faults W = [] ->
            (forall c, exists l, In l (languages W) /\ Language.code l = c) ->
            _initialize_languages W = (Ok tt, W)) as Hfix.
  { intros W HfW Hc.
    destruct (initialize_loop languages_data W HfW) as (a & Hr & _ & _ & _ & Hid).
    rewrite Hid in Hr by (intros c n _; apply Hc).
    rewrite app_nil_r, set_languages_same in Hr.
    unfold _initialize_languages, in_transaction.
    erewrite bind_Ok; [|exact Hr]. now rewrite store_op_healthy. }
  split; [|split; [|split; [|split; [|split; [|split; [|split; [|split]]]]]]];
    try reflexivity.
  - unfold _initialize_languages, in_transaction.
    erewrite bind_Ok; [|exact Hrun]. now rewrite store_op_healthy.
  - exact Hevery.
  - exact Hnew.
  - intros Hu. cbn [languages set_languages]. rewrite map_app.
    apply NoDup_ListNoDup, NoDup_app. split; [now apply NoDup_ListNoDup|]. split.
    + intros c Hc Hc'. apply list_elem_of_In, in_map_iff in Hc as (l0 & E0 & Hl0).
      apply list_elem_of_In, in_map_iff in Hc' as (l & E & Hl).
      destruct (Hnew l Hl) as (_ & _ & Hfresh). apply (Hfresh l0 Hl0). congruence.
    + now apply NoDup_ListNoDup.
  - apply Hfix; [exact Hf|exact Hevery].
Qed.

(** An empty table gets the four languages, with keys 1 to 4. *)
Lemma initialize_languages_witness :
  faults (set_languages [] pending_world) = []
  /\ exists added w',
       _initialize_languages (set_languages [] pending_world) = (Ok tt, w')
       /\ languages w' = added
       /\ map Language.code added = [ENGLISH; SPANISH; FRENCH; GERMAN].
Proof.
  split; [reflexivity|].
  destruct (initialize_languages_completes_table (set_languages [] pending_world) eq_refl)
    as (added & w' & Hrun & Hl & _).
  exists added, w'. split; [exact Hrun|]. split; [exact Hl|].
  assert (languages w' = languages (snd (_initialize_languages
                                          (set_languages [] pending_world)))) as E
    by now rewrite Hrun.
  rewrite Hl in E. cbn [languages set_languages app] in E. rewrite E.
  vm_compute. reflexivity.
Defined.

(** * Store faults: raised by the queries, absorbed by the pipeline *)

Lemma store_op_faulty e fs w :
  faults w = Some e :: fs -> store_op w = (Raise e, set_faults fs w).
Proof. intros H. unfold store_op. now rewrite H. Qed.

Lemma bind_Raise {S A B} (m : SE S A) (k : A -> SE S B) s e s1 :
  m s = (Raise e, s1) -> bind m k s = (Raise e, s1).
Proof. intros H. unfold bind. now rewrite H. Qed.

Lemma session_get_job_faulty job_id e fs w :
  faults w = Some e :: fs -> session_get_job job_id w = (Raise e, set_faults fs w).
Proof. intros H. apply bind_Raise. exact (store_op_faulty e fs w H). Qed.

Lemma _update_job_error_trace job_id msg w :
  exists w',
    _update_job_error job_id msg w = (Ok tt, w')
    /\ (trace w' = trace w \/ trace w' = (trace w ++ [EvStatus job_id FAILED])%list)
    /\ videos w' = videos w /\ outside w' = outside w.
Proof.
  apply wp_returns. unfold _update_job_error.
  apply wp_try_except, wp_bind, wp_session_get_job_any.
  - intros fs. destruct (jobs w !! job_id) as [j|].
    + apply wp_bind, wp_utcnow, wp_bind, wp_utcnow, wp_session_commit_job_any.
      * intros fs'. split; [reflexivity|]. split; [now right|done].
      * intros e fs'. apply wp_ret. split; [reflexivity|]. split; [now left|done].
    + apply wp_ret. split; [reflexivity|]. split; [now left|done].
  - intros e fs. apply wp_ret. split; [reflexivity|]. split; [now left|done].
Qed.

(** X21: when the store fails at the next operation, the query and creation
    methods raise that very error and write nothing, while
    [process_dubbing_job] absorbs it: it returns [False] without calling a
    stage. *)
Theorem store_fault_raised_by_queries_absorbed_by_pipeline e fs w :
  faults w = Some e :: fs ->
  get_languages w = (Raise e, set_faults fs w)
  /\ (forall i, get_target_languages i w = (Raise e, set_faults fs w))
  /\ (forall v l, create_dubbing_job v l w = (Raise e, set_faults fs w))
  /\ (forall i, get_dubbing_job i w = (Raise e, set_faults fs w))
  /\ (forall v, get_dubbing_jobs v w = (Raise e, set_faults fs w))
  /\ (forall i, get_output_file_path i w = (Raise e, set_faults fs w))
  /\ (forall svc i, exists w',
        process_dubbing_job svc i w = (Ok false, w')
        /\ stages_invoked (events_since w w') = []
        /\ videos w' = videos w /\ outside w' = outside w).
Proof.
  intros Hf.
  split; [apply bind_Raise; exact (store_op_faulty e fs w Hf)|].
  split; [intros i; apply bind_Raise; exact (store_op_faulty e fs w Hf)|].
  split.
  { intros v l. unfold create_dubbing_job.
    erewrite bind_Ok by (unfold utcnow, lift_outside, now; now rewrite set_outside_same).
    erewrite bind_Ok by (unfold utcnow, lift_outside, now; now rewrite set_outside_same).
    apply bind_Raise. exact (store_op_faulty e fs w Hf). }
  split; [intros i; apply bind_Raise; exact (session_get_job_faulty _ e fs w Hf)|].
  split.
  { intros v. unfold get_dubbing_jobs. apply bind_Raise.
    unfold session_select_jobs. apply bind_Raise. exact (store_op_faulty e fs w Hf). }
  split; [intros i; apply bind_Raise; exact (session_get_job_faulty _ e fs w Hf)|].
  intros svc i. unfold process_dubbing_job, try_except.
  erewrite bind_Raise
    by (unfold start_processing; apply bind_Raise; exact (session_get_job_faulty _ e fs w Hf)).
  destruct (_update_job_error_trace i e (set_faults fs w)) as (w' & Hrun & Htr & Hv & Ho).
  exists w'. erewrite bind_Ok by exact Hrun. split; [reflexivity|].
  split; [|split; [exact Hv|exact Ho]].
  cbn [trace set_faults] in Htr. destruct Htr as [Htr|Htr].
  - rewrite (events_since_app w w' []); [reflexivity|].
    rewrite Htr. symmetry. apply app_nil_r.
  - rewrite (events_since_app w w' [EvStatus i FAILED]) by exact Htr. reflexivity.
Qed.

(** The store is down for one operation. *)
Lemma store_fault_witness :
  faults (set_faults [Some "connection refused"] pending_world)
  = [Some "connection refused"]
  /\ get_dubbing_job 1 (set_faults [Some "connection refused"] pending_world)
     = (Raise "connection refused", set_faults [] pending_world).
Proof.
  split; [reflexivity|].
  apply (store_fault_raised_by_queries_absorbed_by_pipeline "connection refused" []
           (set_faults [Some "connection refused"] pending_world) eq_refl).
Defined.
